(** * A shallow embedding of the execution core of the ahandd daemon

    The development follows the Rust sources of [crates/ahandd/src]:
    [policy.rs] (policy evaluator), [session.rs] (session manager),
    [approval.rs] (approval manager), [registry.rs] (job registry),
    [outbox.rs] (outbox), [executor.rs] (job executor) and the two request
    pipelines of [client.rs] (controller channel) and [ipc.rs] (operator
    channel).

    Modelling conventions:
    - Rust [String] is [string]; [Vec<String>] is [list string].
    - [HashMap<String, _>] is stdpp's [gmap string _]; [HashSet<String>] is
      [gset string]; a [VecDeque] is a [list] with its front at the head.
    - [u64] counters are [N]; where the source adds or multiplies in [u64]
      the wrap-around of a release build is written out ([wrap64]).
    - [std::time::Instant] is a [N] count of nanoseconds on the monotonic
      clock, passed explicitly to every operation that reads the clock;
      the wall-clock milliseconds of [now_ms()] are a second explicit [N].
    - A mutex-guarded component is a record passed and returned explicitly
      (each method takes its lock once, so each method is one step). *)

From Stdlib Require Import NArith ZArith Ascii String Sorting.Sorted.
From stdpp Require Import base gmap strings list fin_maps.

Open Scope string_scope.
Open Scope nat_scope.

(* ------------------------------------------------------------------ *)
(** ** Machine integers and string helpers *)

Definition two64 : N := 2 ^ 64.

(** [u64] arithmetic as compiled in release mode (wrapping). *)
Definition wrap64 (n : N) : N := n mod two64.

(** [Duration::from_secs(s)] as nanoseconds on the [Instant] scale. *)
Definition dur_secs (s : N) : N := s * 1000000000.

Definition dq : ascii := "034"%char.
Definition bslash : ascii := "092"%char.

(** Rust's [{:?}] on a [String]: quotes and escapes ([escape_debug]).
    The escapes of [\], the double quote, newline, carriage return and tab
    are written out; other control characters (printed as [\u{..}]) and
    non-printable Unicode are not modelled. *)
Fixpoint escape_debug (s : string) : string :=
  match s with
  | EmptyString => EmptyString
  | String c rest =>
      let tail := escape_debug rest in
      if Ascii.eqb c dq then String bslash (String dq tail)
      else if Ascii.eqb c bslash then String bslash (String bslash tail)
      else if Ascii.eqb c "010"%char then String bslash (String "n" tail)
      else if Ascii.eqb c "013"%char then String bslash (String "r" tail)
      else if Ascii.eqb c "009"%char then String bslash (String "t" tail)
      else String c tail
  end.

Definition debug_fmt (s : string) : string :=
  String dq (escape_debug s ++ String dq EmptyString).

(** [s.starts_with(p)] *)
Definition starts_with (p s : string) : bool := String.prefix p s.

(** [s.contains(c)] for a [char] pattern. *)
Fixpoint contains_char (c : ascii) (s : string) : bool :=
  match s with
  | EmptyString => false
  | String c' rest => Ascii.eqb c c' || contains_char c rest
  end.

(** [s.split(c).next().unwrap()]: the part before the first [c]. *)
Fixpoint before_char (c : ascii) (s : string) : string :=
  match s with
  | EmptyString => EmptyString
  | String c' rest =>
      if Ascii.eqb c c' then EmptyString else String c' (before_char c rest)
  end.

(** [&s[s.find(c)? + 1..]]: the part after the first [c], if any. *)
Fixpoint after_char (c : ascii) (s : string) : option string :=
  match s with
  | EmptyString => None
  | String c' rest => if Ascii.eqb c c' then Some rest else after_char c rest
  end.

(** [s.rsplit(c).next().unwrap()]: the part after the last [c]. *)
Fixpoint after_last_char (c : ascii) (s : string) : string :=
  match s with
  | EmptyString => EmptyString
  | String c' rest =>
      match after_char c rest with
      | Some _ => after_last_char c rest
      | None => if Ascii.eqb c c' then rest else s
      end
  end.

(** [v.join(sep)] *)
Fixpoint join (sep : string) (l : list string) : string :=
  match l with
  | [] => EmptyString
  | [x] => x
  | x :: rest => x ++ sep ++ join sep rest
  end.

Definition str_in (x : string) (l : list string) : bool :=
  existsb (String.eqb x) l.

Definition ascii_lower (c : ascii) : ascii :=
  let n := nat_of_ascii c in
  if (65 <=? n) && (n <=? 90) then ascii_of_nat (n + 32) else c.

Fixpoint str_lower (s : string) : string :=
  match s with
  | EmptyString => EmptyString
  | String c rest => String (ascii_lower c) (str_lower rest)
  end.

Definition is_alpha (c : ascii) : bool :=
  let n := nat_of_ascii c in ((65 <=? n) && (n <=? 90)) || ((97 <=? n) && (n <=? 122)).

Definition is_digit (c : ascii) : bool :=
  let n := nat_of_ascii c in (48 <=? n) && (n <=? 57).

(* ------------------------------------------------------------------ *)
(** ** [Url::parse(s).ok()?.host_str()] of the [url] crate

    [try_extract_url_host] calls into the [url] crate (WHATWG URL
    parsing without a base).  This is the part of that parser the host
    extraction depends on: the input is trimmed of leading and trailing
    C0 controls and spaces and stripped of tabs and newlines; a scheme
    is an ASCII letter followed by letters, digits, [+], [-] or [.] and a
    colon (no scheme: parsing fails, as there is no base URL); for the
    special schemes [http], [https], [ws], [wss], [ftp] the slashes after
    the colon are skipped and the authority runs to the first [/], [\],
    [?] or [#]; for [file] and the other schemes a host exists only after
    [//].  Userinfo (up to the last [@]) and the port are dropped; a port
    that is not a decimal number at most 65535 makes parsing fail; a
    special host is lower-cased, must be non-empty and free of forbidden
    code points.  Percent-decoding, IDNA mapping of non-ASCII hosts and
    IPv4 number normalisation are not modelled. *)

Definition is_c0_or_space (c : ascii) : bool := nat_of_ascii c <=? 32.

Fixpoint drop_leading_c0 (s : string) : string :=
  match s with
  | String c rest => if is_c0_or_space c then drop_leading_c0 rest else s
  | EmptyString => EmptyString
  end.

Fixpoint str_rev (s : string) (acc : string) : string :=
  match s with
  | EmptyString => acc
  | String c rest => str_rev rest (String c acc)
  end.

Fixpoint remove_tab_nl (s : string) : string :=
  match s with
  | EmptyString => EmptyString
  | String c rest =>
      let n := nat_of_ascii c in
      if (n =? 9) || (n =? 10) || (n =? 13) then remove_tab_nl rest
      else String c (remove_tab_nl rest)
  end.

Definition url_preprocess (s : string) : string :=
  remove_tab_nl
    (str_rev (drop_leading_c0 (str_rev (drop_leading_c0 s) EmptyString)) EmptyString).

Definition is_scheme_char (c : ascii) : bool :=
  is_alpha c || is_digit c || Ascii.eqb c "+" || Ascii.eqb c "-" || Ascii.eqb c ".".

(** The scheme characters after the first letter, and the text after
    the colon. *)
Fixpoint scheme_tail (s : string) : option (string * string) :=
  match s with
  | EmptyString => None
  | String c rest =>
      if Ascii.eqb c ":" then Some (EmptyString, rest)
      else if is_scheme_char c then
        match scheme_tail rest with
        | Some (sch, after) => Some (String c sch, after)
        | None => None
        end
      else None
  end.

Definition parse_scheme (s : string) : option (string * string) :=
  match s with
  | String c rest =>
      if is_alpha c then
        match scheme_tail rest with
        | Some (sch, after) => Some (str_lower (String c sch), after)
        | None => None
        end
      else None
  | EmptyString => None
  end.

Fixpoint skip_slashes (s : string) : string :=
  match s with
  | String c rest =>
      if Ascii.eqb c "/" || Ascii.eqb c bslash then skip_slashes rest else s
  | EmptyString => EmptyString
  end.

Fixpoint take_until (stop : ascii -> bool) (s : string) : string :=
  match s with
  | EmptyString => EmptyString
  | String c rest => if stop c then EmptyString else String c (take_until stop rest)
  end.

Definition special_end (c : ascii) : bool :=
  Ascii.eqb c "/" || Ascii.eqb c bslash || Ascii.eqb c "?" || Ascii.eqb c "#".

Definition plain_end (c : ascii) : bool :=
  Ascii.eqb c "/" || Ascii.eqb c "?" || Ascii.eqb c "#".

Fixpoint digits_value (s : string) (acc : N) : option N :=
  match s with
  | EmptyString => Some acc
  | String c rest =>
      if is_digit c
      then digits_value rest (acc * 10 + N.of_nat (nat_of_ascii c - 48))
      else None
  end.

(** A port part is absent, empty, or a decimal number at most 65535. *)
Definition valid_port (p : option string) : bool :=
  match p with
  | None => true
  | Some ps =>
      match digits_value ps 0 with
      | Some v => (v <=? 65535)%N
      | None => false
      end
  end.

(** Split [host[:port]], keeping a bracketed IPv6 literal whole. *)
Definition split_host_port (hp : string) : string * option string :=
  match hp with
  | String c _ =>
      if Ascii.eqb c "[" then
        let h := take_until (fun x => Ascii.eqb x "]") hp ++ "]" in
        match after_char "]" hp with
        | Some (String col port) =>
            if Ascii.eqb col ":" then (h, Some port) else (h, Some (String col port))
        | _ => (h, None)
        end
      else (before_char ":" hp, after_char ":" hp)
  | EmptyString => (EmptyString, None)
  end.

Definition forbidden_domain_char (c : ascii) : bool :=
  let n := nat_of_ascii c in
  (n <=? 32) || (n =? 127) || contains_char c "#%/:<>?@[]^|" || Ascii.eqb c bslash.

Fixpoint all_chars (p : ascii -> bool) (s : string) : bool :=
  match s with
  | EmptyString => true
  | String c rest => p c && all_chars p rest
  end.

Definition valid_special_host (h : string) : bool :=
  match h with
  | EmptyString => false
  | String c _ =>
      if Ascii.eqb c "[" then true
      else all_chars (fun x => negb (forbidden_domain_char x)) h
  end.

Definition is_special_scheme (sch : string) : bool :=
  str_in sch ["http"; "https"; "ws"; "wss"; "ftp"].

Definition is_slash (c : ascii) : bool := Ascii.eqb c "/" || Ascii.eqb c bslash.

Definition url_host (raw : string) : option string :=
  let s := url_preprocess raw in
  match parse_scheme s with
  | None => None
  | Some (sch, after) =>
      if is_special_scheme sch then
        let auth := take_until special_end (skip_slashes after) in
        let '(h, port) := split_host_port (after_last_char "@" auth) in
        let h := str_lower h in
        if valid_port port && valid_special_host h then Some h else None
      else if String.eqb sch "file" then
        match after with
        | String c1 (String c2 rest) =>
            if is_slash c1 && is_slash c2 then
              let h := str_lower (take_until special_end rest) in
              if String.eqb h EmptyString || String.eqb h "localhost" then None
              else if valid_special_host h then Some h else None
            else None
        | _ => None
        end
      else
        match after with
        | String "/" (String "/" rest) =>
            let '(h, port) :=
              split_host_port (after_last_char "@" (take_until plain_end rest)) in
            if valid_port port then Some h else None
        | _ => None
        end
  end.

(* ------------------------------------------------------------------ *)
(** ** Protocol and configuration records *)

Record JobRequest := mkJobRequest {
  job_id : string;
  tool : string;
  args : list string;
  cwd : string;
  env : list (string * string);
  timeout_ms : N
}.

Record PolicyConfig := mkPolicyConfig {
  allowed_tools : list string;
  denied_paths : list string;
  denied_tools : list string;
  allowed_domains : list string;
  approval_timeout_secs : N
}.

Record PolicyUpdate := mkPolicyUpdate {
  add_allowed_tools : list string;
  remove_allowed_tools : list string;
  add_denied_tools : list string;
  remove_denied_tools : list string;
  add_denied_paths : list string;
  remove_denied_paths : list string;
  add_allowed_domains : list string;
  remove_allowed_domains : list string;
  upd_approval_timeout_secs : N
}.

Record RefusalContext := mkRefusalContext {
  rc_tool : string;
  rc_reason : string;
  rc_refused_at_ms : N
}.

Record ApprovalRequest := mkApprovalRequest {
  ar_job_id : string;
  ar_tool : string;
  ar_args : list string;
  ar_cwd : string;
  ar_reason : string;
  ar_detected_domains : list string;
  ar_expires_ms : N;
  ar_caller_uid : string;
  ar_previous_refusals : list RefusalContext
}.

Record ApprovalResponse := mkApprovalResponse {
  resp_job_id : string;
  resp_approved : bool;
  resp_remember : bool;
  resp_reason : string
}.

(* ------------------------------------------------------------------ *)
(** ** Policy evaluator ([policy.rs]) *)

Module Policy.

Inductive PolicyDecision :=
| Allow
| Deny (reason : string)
| NeedsApproval (reason : string) (detected_domains : list string).

(** [PolicyChecker]: the configuration and the per-caller session
    memory [caller_uid -> set of "tool:..."/"domain:..." keys]. *)
Record PolicyChecker := mkPolicyChecker {
  config : PolicyConfig;
  session_approvals : gmap string (gset string)
}.

Definition new (cfg : PolicyConfig) : PolicyChecker :=
  mkPolicyChecker cfg ∅.

Definition NETWORK_TOOLS : list string :=
  ["curl"; "wget"; "git"; "ssh"; "scp"; "rsync"; "sftp";
   "nc"; "ncat"; "nmap"; "ping"; "dig"; "nslookup";
   "http"; "https"; "fetch"].

Definition try_extract_url_host (s : string) : option string := url_host s.

Definition try_extract_ssh_host (s : string) : option string :=
  match after_char "@" s with
  | Some after_at =>
      let host := before_char ":" after_at in
      if negb (String.eqb host EmptyString) && contains_char "." host
      then Some host else None
  | None => None
  end.

(** [if !domains.contains(&host) { domains.push(host) }] *)
Definition push_new (host : string) (domains : list string) : list string :=
  if str_in host domains then domains else app domains [host].

Definition extract_domains_arg (base : string) (domains : list string) (arg : string)
  : list string :=
  if starts_with "-" arg then domains
  else match try_extract_url_host arg with
  | Some host => push_new host domains
  | None =>
      match try_extract_ssh_host arg with
      | Some host => push_new host domains
      | None =>
          if str_in base ["ssh"; "ping"; "dig"; "nslookup"; "nc"; "ncat"]
             && negb (contains_char "/" arg) && contains_char "." arg
          then push_new (before_char ":" arg) domains
          else domains
      end
  end.

Definition extract_domains (tool : string) (args : list string) : list string :=
  let base := after_last_char "/" tool in
  if negb (str_in base NETWORK_TOOLS) then []
  else fold_left (extract_domains_arg base) args [].

(** The first denied path that is a prefix of [cwd], if [cwd] is non-empty. *)
Definition denied_path_hit (cfg : PolicyConfig) (cwd : string) : bool :=
  negb (String.eqb cwd EmptyString)
  && existsb (fun denied => starts_with denied cwd) (denied_paths cfg).

Definition check (pc : PolicyChecker) (req : JobRequest) (caller_uid : string)
  : PolicyDecision :=
  let cfg := config pc in
  if str_in (tool req) (denied_tools cfg) then
    Deny ("tool " ++ debug_fmt (tool req) ++ " is in the deny list")
  else if denied_path_hit cfg (cwd req) then
    Deny ("working directory " ++ debug_fmt (cwd req) ++ " is denied by policy")
  else
    let detected_domains := extract_domains (tool req) (args req) in
    let '(tool_remembered, remembered_domains) :=
      match session_approvals pc !! caller_uid with
      | Some approvals =>
          (bool_decide (("tool:" ++ tool req) ∈ approvals),
           filter (fun d => ("domain:" ++ d) ∈ approvals) detected_domains)
      | None => (false, [])
      end in
    let tool_allowed :=
      match allowed_tools cfg with [] => true | _ => false end
      || str_in (tool req) (allowed_tools cfg) || tool_remembered in
    if negb tool_allowed then
      NeedsApproval ("tool " ++ debug_fmt (tool req) ++ " is not in the allow list")
        detected_domains
    else if negb (match detected_domains with [] => true | _ => false end)
            && negb (match allowed_domains cfg with [] => true | _ => false end) then
      let unapproved :=
        List.filter (fun d => negb (str_in d (allowed_domains cfg))
                              && negb (str_in d remembered_domains))
          detected_domains in
      match unapproved with
      | [] => Allow
      | _ => NeedsApproval ("domain(s) " ++ join ", " unapproved
                            ++ " not in allowed domains") detected_domains
      end
    else Allow.

Definition remember_approval (pc : PolicyChecker) (caller_uid tool : string)
  (domains : list string) : PolicyChecker :=
  let set := default ∅ (session_approvals pc !! caller_uid) in
  let set := {[ "tool:" ++ tool ]} ∪ set in
  let set := fold_left (fun s d => {[ "domain:" ++ d ]} ∪ s) domains set in
  mkPolicyChecker (config pc) (<[caller_uid := set]> (session_approvals pc)).

(** [apply_list_update]: retain what is not removed, then push each
    added item that is not yet present. *)
Definition apply_list_update (lst : list string) (add remove : list string)
  : list string :=
  let retained := List.filter (fun item => negb (str_in item remove)) lst in
  fold_left (fun l item => if str_in item l then l else app l [item]) add retained.

Definition apply_update_cfg (cfg : PolicyConfig) (u : PolicyUpdate) : PolicyConfig :=
  mkPolicyConfig
    (apply_list_update (allowed_tools cfg) (add_allowed_tools u) (remove_allowed_tools u))
    (apply_list_update (denied_paths cfg) (add_denied_paths u) (remove_denied_paths u))
    (apply_list_update (denied_tools cfg) (add_denied_tools u) (remove_denied_tools u))
    (apply_list_update (allowed_domains cfg) (add_allowed_domains u)
       (remove_allowed_domains u))
    (if (0 <? upd_approval_timeout_secs u)%N then upd_approval_timeout_secs u
     else approval_timeout_secs cfg).

Definition apply_update (pc : PolicyChecker) (u : PolicyUpdate) : PolicyChecker :=
  mkPolicyChecker (apply_update_cfg (config pc) u) (session_approvals pc).

(** [get_state]: the four lists and the timeout, as a [PolicyState]. *)
Definition get_state (pc : PolicyChecker) : PolicyConfig := config pc.

End Policy.

(* ------------------------------------------------------------------ *)
(** ** Session manager ([session.rs]) *)

Module Session.

Inductive SessionMode := Inactive | Strict | Trust | AutoAccept.

Definition SessionMode_eqb (a b : SessionMode) : bool :=
  match a, b with
  | Inactive, Inactive | Strict, Strict | Trust, Trust | AutoAccept, AutoAccept => true
  | _, _ => false
  end.

Inductive SessionDecision :=
| Allow
| Deny (reason : string)
| NeedsApproval (reason : string) (previous_refusals : list RefusalContext).

Record CallerSession := mkCallerSession {
  mode : SessionMode;
  trust_expires : option N;
  trust_timeout_mins : N
}.

Record RefusalEntry := mkRefusalEntry {
  re_tool : string;
  re_reason : string;
  expires_at : N;
  refused_at_ms : N
}.

Record SessionManager := mkSessionManager {
  sessions : gmap string CallerSession;
  refusal_log : list RefusalEntry;
  default_trust_timeout_mins : N
}.

Record SessionState := mkSessionState {
  ss_caller_uid : string;
  ss_mode : SessionMode;
  ss_trust_expires_ms : N;
  ss_trust_timeout_mins : N
}.

Definition new (default_trust_timeout_mins : N) : SessionManager :=
  mkSessionManager ∅ [] default_trust_timeout_mins.

(** [Duration::from_secs(mins * 60)], the product taken in [u64]. *)
Definition trust_duration (mins : N) : N := dur_secs (wrap64 (mins * 60)).

Definition with_sessions (sm : SessionManager) (s : gmap string CallerSession)
  : SessionManager :=
  mkSessionManager s (refusal_log sm) (default_trust_timeout_mins sm).

Definition with_log (sm : SessionManager) (l : list RefusalEntry) : SessionManager :=
  mkSessionManager (sessions sm) l (default_trust_timeout_mins sm).

Definition register_caller (sm : SessionManager) (caller_uid : string) : SessionManager :=
  match sessions sm !! caller_uid with
  | Some _ => sm
  | None =>
      with_sessions sm
        (<[caller_uid := mkCallerSession Inactive None (default_trust_timeout_mins sm)]>
           (sessions sm))
  end.

(** [get_refusals(tool)] at instant [now]: prunes expired entries, then
    returns the entries of [tool] (of every caller). *)
Definition get_refusals (sm : SessionManager) (tool : string) (now : N)
  : list RefusalContext * SessionManager :=
  let log := List.filter (fun e => (now <? expires_at e)%N) (refusal_log sm) in
  (map (fun e => mkRefusalContext (re_tool e) (re_reason e) (refused_at_ms e))
     (List.filter (fun e => String.eqb (re_tool e) tool) log),
   with_log sm log).

(** [check(req, caller_uid)] at instant [now] (one reading of the clock). *)
Definition check (sm : SessionManager) (req : JobRequest) (caller_uid : string) (now : N)
  : SessionDecision * SessionManager :=
  match sessions sm !! caller_uid with
  | None => (Deny "session not activated", sm)
  | Some session =>
      match mode session with
      | Inactive => (Deny "session not activated", sm)
      | Strict =>
          let '(refusals, sm') := get_refusals sm (tool req) now in
          (NeedsApproval ("strict mode: approval required for " ++ debug_fmt (tool req))
             refusals, sm')
      | Trust =>
          match trust_expires session with
          | Some expires =>
              if (expires <=? now)%N then
                (Deny "trust expired",
                 with_sessions sm
                   (<[caller_uid := mkCallerSession Inactive None
                                      (trust_timeout_mins session)]> (sessions sm)))
              else
                (Allow,
                 with_sessions sm
                   (<[caller_uid := mkCallerSession Trust
                        (Some (now + trust_duration (trust_timeout_mins session))%N)
                        (trust_timeout_mins session)]> (sessions sm)))
          | None => (Allow, sm)
          end
      | AutoAccept => (Allow, sm)
      end
  end.

(** [set_mode(caller_uid, mode, trust_timeout_mins)] at [now] / [now_ms]. *)
Definition set_mode (sm : SessionManager) (caller_uid : string) (m : SessionMode)
  (mins : N) (now now_ms : N) : SessionState * SessionManager :=
  let timeout := if (mins =? 0)%N then default_trust_timeout_mins sm else mins in
  let trust_expires :=
    if SessionMode_eqb m Trust then Some (now + trust_duration timeout)%N else None in
  let trust_expires_ms :=
    match trust_expires with
    | Some exp => wrap64 (now_ms + (exp - now) / 1000000)
    | None => 0%N
    end in
  (mkSessionState caller_uid m trust_expires_ms timeout,
   with_sessions sm (<[caller_uid := mkCallerSession m trust_expires timeout]>
                       (sessions sm))).

(** [record_refusal(_caller_uid, tool, reason)]: the caller is unused. *)
Definition record_refusal (sm : SessionManager) (_caller_uid tool reason : string)
  (now now_ms : N) : SessionManager :=
  with_log sm (app (refusal_log sm)
                 [mkRefusalEntry tool reason (now + dur_secs (24 * 3600))%N now_ms]).

Definition get_session_state (sm : SessionManager) (caller_uid : string) (now now_ms : N)
  : SessionState :=
  match sessions sm !! caller_uid with
  | Some session =>
      let trust_expires_ms :=
        match trust_expires session with
        | Some exp => if (now <? exp)%N then wrap64 (now_ms + (exp - now) / 1000000)
                      else 0%N
        | None => 0%N
        end in
      mkSessionState caller_uid (mode session) trust_expires_ms
        (trust_timeout_mins session)
  | None => mkSessionState caller_uid Inactive 0 (default_trust_timeout_mins sm)
  end.

(** The states the public operations of [SessionManager] reach from
    [SessionManager::new] (times are arbitrary readings of the clock). *)
Inductive reachable : SessionManager -> Prop :=
| reach_new d : reachable (new d)
| reach_register sm c : reachable sm -> reachable (register_caller sm c)
| reach_set_mode sm c m mins now ms :
    reachable sm -> reachable (snd (set_mode sm c m mins now ms))
| reach_check sm req c now : reachable sm -> reachable (snd (check sm req c now))
| reach_refusal sm c t r now ms : reachable sm -> reachable (record_refusal sm c t r now ms)
| reach_get_refusals sm t now : reachable sm -> reachable (snd (get_refusals sm t now)).

(** [query_sessions(caller_uid)] at [now] / [now_ms]: the state of the
    given caller, or (for an empty [caller_uid]) one state per registered
    caller, in the iteration order of the map.  The source reads the
    clock once per caller; the model reads it once. *)
Definition query_sessions (sm : SessionManager) (caller_uid : string) (now now_ms : N)
  : list SessionState :=
  if negb (String.eqb caller_uid EmptyString) then [get_session_state sm caller_uid now now_ms]
  else
    map (fun '(uid, session) =>
           let trust_expires_ms :=
             match trust_expires session with
             | Some exp => if (now <? exp)%N then wrap64 (now_ms + (exp - now) / 1000000)
                           else 0%N
             | None => 0%N
             end in
           mkSessionState uid (mode session) trust_expires_ms (trust_timeout_mins session))
      (map_to_list (sessions sm)).

End Session.

(* ------------------------------------------------------------------ *)
(** ** Approval manager ([approval.rs]) *)

Module Approval.

Record PendingApproval := mkPendingApproval {
  pa_request : JobRequest;
  pa_caller_uid : string;
  pa_approval_request : ApprovalRequest
}.

(** The one-shot result slots are not part of the state: the waiter
    that owns the receiver is modelled by the pipeline below. *)
Record ApprovalManager := mkApprovalManager {
  pending : gmap string PendingApproval;
  default_timeout_secs : N
}.

Definition new (timeout_secs : N) : ApprovalManager := mkApprovalManager ∅ timeout_secs.

(** [submit(req, caller_uid, reason, previous_refusals)] at [now_ms]. *)
Definition submit (am : ApprovalManager) (req : JobRequest) (caller_uid reason : string)
  (previous_refusals : list RefusalContext) (now_ms : N)
  : ApprovalRequest * ApprovalManager :=
  let expires_ms := wrap64 (now_ms + wrap64 (default_timeout_secs am * 1000)) in
  let approval_req :=
    mkApprovalRequest (job_id req) (tool req) (args req) (cwd req) reason []
      expires_ms caller_uid previous_refusals in
  (approval_req,
   mkApprovalManager
     (<[job_id req := mkPendingApproval req caller_uid approval_req]> (pending am))
     (default_timeout_secs am)).

Definition resolve (am : ApprovalManager) (resp : ApprovalResponse)
  : option (JobRequest * string) * ApprovalManager :=
  match pending am !! resp_job_id resp with
  | Some e => (Some (pa_request e, pa_caller_uid e),
               mkApprovalManager (delete (resp_job_id resp) (pending am))
                 (default_timeout_secs am))
  | None => (None, am)
  end.

Definition expire (am : ApprovalManager) (jid : string) : bool * ApprovalManager :=
  (bool_decide (is_Some (pending am !! jid)),
   mkApprovalManager (delete jid (pending am)) (default_timeout_secs am)).

End Approval.

(* ------------------------------------------------------------------ *)
(** ** Job registry ([registry.rs]) *)

Module Registry.

Record CompletedJob := mkCompletedJob { exit_code : Z; error : string }.

Inductive IsKnown := Running | Completed (c : CompletedJob) | Unknown.

(** The running map's values are cancel senders, not modelled: the map
    is its key set.  [completed] is the [VecDeque], front first. *)
Record JobRegistry := mkJobRegistry {
  jobs : gset string;
  completed : list (string * CompletedJob);
  max_completed : nat
}.

Definition new : JobRegistry := mkJobRegistry ∅ [] 1000.

Definition register (r : JobRegistry) (jid : string) : JobRegistry :=
  mkJobRegistry ({[jid]} ∪ jobs r) (completed r) (max_completed r).

Definition remove (r : JobRegistry) (jid : string) : JobRegistry :=
  mkJobRegistry (jobs r ∖ {[jid]}) (completed r) (max_completed r).

Fixpoint find_completed (jid : string) (l : list (string * CompletedJob))
  : option CompletedJob :=
  match l with
  | [] => None
  | (id, c) :: rest => if String.eqb id jid then Some c else find_completed jid rest
  end.

Definition is_known (r : JobRegistry) (jid : string) : IsKnown :=
  if bool_decide (jid ∈ jobs r) then Running
  else match find_completed jid (completed r) with
       | Some c => Completed c
       | None => Unknown
       end.

(** [push_back], then [pop_front] while the length exceeds the bound. *)
Definition mark_completed (r : JobRegistry) (jid : string) (code : Z) (err : string)
  : JobRegistry :=
  let q := app (completed r) [(jid, mkCompletedJob code err)] in
  mkJobRegistry (jobs r) (drop (length q - max_completed r) q) (max_completed r).

(** [active_count]: the number of running jobs. *)
Definition active_count (r : JobRegistry) : nat := size (jobs r).

End Registry.

(* ------------------------------------------------------------------ *)
(** ** Outbox ([outbox.rs]) *)

Module Outbox.

(** The fields of an [Envelope] the outbox touches; the payload is kept
    abstract, and its encoding ([prost]'s [encode_to_vec]) is a
    parameter of [prepare_outbound]. *)
Record Envelope {P : Type} := mkEnvelope {
  env_seq : N;
  env_ack : N;
  env_payload : P
}.
Arguments Envelope : clear implicits.
Arguments mkEnvelope {P}.

Record Outbox := mkOutbox {
  next_seq : N;
  peer_ack : N;
  local_ack : N;
  buffer : list (N * list Byte.byte);
  max_buffer : nat
}.

Definition new (max_buffer : nat) : Outbox := mkOutbox 1 0 0 [] max_buffer.

(** [stamp]: the seq is [next_seq]; [next_seq += 1] in [u64]. *)
Definition stamp {P} (o : Outbox) (e : Envelope P) : N * Envelope P * Outbox :=
  let seq := next_seq o in
  (seq, mkEnvelope seq (local_ack o) (env_payload e),
   mkOutbox (wrap64 (seq + 1)) (peer_ack o) (local_ack o) (buffer o) (max_buffer o)).

(** [store]: [push_back], then evict from the front while over capacity. *)
Definition store (o : Outbox) (seq : N) (data : list Byte.byte) : Outbox :=
  let b := app (buffer o) [(seq, data)] in
  mkOutbox (next_seq o) (peer_ack o) (local_ack o) (drop (length b - max_buffer o) b)
    (max_buffer o).

Definition on_recv (o : Outbox) (seq : N) : Outbox :=
  if (local_ack o <? seq)%N
  then mkOutbox (next_seq o) (peer_ack o) seq (buffer o) (max_buffer o)
  else o.

(** The [while let Some((seq, _)) = buffer.front()] loop of [on_peer_ack]. *)
Fixpoint pop_acked (pa : N) (b : list (N * list Byte.byte)) : list (N * list Byte.byte) :=
  match b with
  | [] => []
  | (seq, d) :: rest => if (seq <=? pa)%N then pop_acked pa rest else b
  end.

Definition on_peer_ack (o : Outbox) (ack : N) : Outbox :=
  let pa := if (peer_ack o <? ack)%N then ack else peer_ack o in
  mkOutbox (next_seq o) pa (local_ack o) (pop_acked pa (buffer o)) (max_buffer o).


Definition pending_count (o : Outbox) : nat := length (buffer o).

Section Prepare.
Context {P : Type} (encode : Envelope P -> list Byte.byte).

Definition prepare_outbound (o : Outbox) (e : Envelope P) : list Byte.byte * Outbox :=
  let '(seq, e', o1) := stamp o e in
  let data := encode e' in
  (data, store o1 seq data).

(** [n] envelopes sent one after the other through [prepare_outbound]. *)
Fixpoint prepare_all (o : Outbox) (es : list (Envelope P)) : Outbox :=
  match es with
  | [] => o
  | e :: rest => prepare_all (snd (prepare_outbound o e)) rest
  end.

(** The outbox states of one connection, with the list of every value
    the [peer_ack] watermark has held (the initial [0] included).  A
    [u64] counter that has wrapped has sent [2^64] messages; the send
    step is taken while [next_seq] is below [u64::MAX]. *)
Inductive reachable : Outbox -> list N -> Prop :=
| reach_new m : reachable (new m) [0%N]
| reach_send o ws e :
    reachable o ws -> (next_seq o < two64 - 1)%N ->
    reachable (snd (prepare_outbound o e)) ws
| reach_recv o ws seq : reachable o ws -> reachable (on_recv o seq) ws
| reach_ack o ws a :
    reachable o ws -> reachable (on_peer_ack o a) (peer_ack (on_peer_ack o a) :: ws).

End Prepare.

End Outbox.

(* ------------------------------------------------------------------ *)
(** ** Messages sent back to a requester *)

Inductive Reply :=
| JobFinishedMsg (jid : string) (exit_code : Z) (error : string)
| JobRejectedMsg (jid : string) (reason : string)
| ApprovalRequestMsg (ar : ApprovalRequest).

(* ------------------------------------------------------------------ *)
(** ** Executor ([executor.rs]) *)

Module Executor.

(** How the child ends, as seen by the race of [run_job]: exit with an
    optional code ([status.code()]), failure of [wait()], the cancel
    signal, or the timer (armed only when [timeout_ms > 0]). *)
Inductive ChildEnd :=
| Exited (code : option Z)
| WaitFailed (e : string)
| CancelReceived
| TimerElapsed.

Definition finish (jid : string) (code : Z) (err : string) : Reply :=
  JobFinishedMsg jid code err.

(** [run_job] with the spawn result ([Some e] when [cmd.spawn()] fails)
    and the winner of the race.  The function's return type is [()]:
    the outcome leaves only through [finish], which sends [JobFinished]
    on [tx].  Output chunks are not modelled.  With [timeout_ms = 0] no
    timer is raced, so [TimerElapsed] does not occur there and the
    model sends nothing for it. *)
Definition run_job (req : JobRequest) (spawn_error : option string) (ending : ChildEnd)
  : unit * list Reply :=
  let jid := job_id req in
  match spawn_error with
  | Some e => (tt, [finish jid (-1) e])
  | None =>
      match ending with
      | TimerElapsed =>
          if (0 <? timeout_ms req)%N then (tt, [finish jid (-1) "timeout"]) else (tt, [])
      | CancelReceived => (tt, [finish jid (-1) "cancelled"])
      | Exited code => (tt, [finish jid (default (-1)%Z code) ""])
      | WaitFailed e => (tt, [finish jid (-1) e])
      end
  end.

End Executor.

(* ------------------------------------------------------------------ *)
(** ** The two request pipelines ([client.rs], [ipc.rs]) *)

Module Pipeline.

(** What a handler does besides updating the shared components: send a
    reply to the requesting channel, publish on the approval broadcast,
    start the executor task for a request, or start an approval waiter. *)
Inductive Effect :=
| Send (r : Reply)
| Broadcast (r : Reply)
| Spawn (req : JobRequest)
| AwaitApproval (jid : string).

Record Daemon := mkDaemon {
  registry : Registry.JobRegistry;
  session_mgr : Session.SessionManager;
  policy : Policy.PolicyChecker;
  approval_mgr : Approval.ApprovalManager
}.

Definition with_registry (d : Daemon) (r : Registry.JobRegistry) : Daemon :=
  mkDaemon r (session_mgr d) (policy d) (approval_mgr d).
Definition with_session_mgr (d : Daemon) (s : Session.SessionManager) : Daemon :=
  mkDaemon (registry d) s (policy d) (approval_mgr d).
Definition with_policy (d : Daemon) (p : Policy.PolicyChecker) : Daemon :=
  mkDaemon (registry d) (session_mgr d) p (approval_mgr d).
Definition with_approval_mgr (d : Daemon) (a : Approval.ApprovalManager) : Daemon :=
  mkDaemon (registry d) (session_mgr d) (policy d) a.

(** [spawn_job]: register the job (before the permit is acquired), then
    hand it to the executor task. *)
Definition spawn_job (d : Daemon) (req : JobRequest) : list Effect * Daemon :=
  ([Spawn req], with_registry d (Registry.register (registry d) (job_id req))).

(** The idempotency check shared by both channels; [None] = continue. *)
Definition idempotency (d : Daemon) (req : JobRequest) : option (list Effect) :=
  match Registry.is_known (registry d) (job_id req) with
  | Registry.Running => Some []
  | Registry.Completed c =>
      Some [Send (JobFinishedMsg (job_id req) (Registry.exit_code c) (Registry.error c))]
  | Registry.Unknown => None
  end.

(** [client.rs] [handle_job_request]: idempotency, then the session
    check; [main.rs] builds the [PolicyChecker] but does not pass it. *)
Definition handle_job_request (d : Daemon) (req : JobRequest) (caller_uid : string)
  (now now_ms : N) : list Effect * Daemon :=
  match idempotency d req with
  | Some effs => (effs, d)
  | None =>
      let '(decision, sm) := Session.check (session_mgr d) req caller_uid now in
      let d := with_session_mgr d sm in
      match decision with
      | Session.Deny reason => ([Send (JobRejectedMsg (job_id req) reason)], d)
      | Session.Allow => spawn_job d req
      | Session.NeedsApproval reason previous_refusals =>
          let '(ar, am) :=
            Approval.submit (approval_mgr d) req caller_uid reason previous_refusals now_ms in
          ([Send (ApprovalRequestMsg ar); Broadcast (ApprovalRequestMsg ar);
            AwaitApproval (job_id req)], with_approval_mgr d am)
      end
  end.

(** [ipc.rs] [handle_ipc_conn], the [JobRequest] arm: idempotency, then
    the policy check.  The source passes [detected_domains] as the last
    argument of [submit], where [approval.rs] declares
    [previous_refusals: Vec<RefusalContext>]; the model passes no
    refusal context (the stored [detected_domains] are empty either way). *)
Definition handle_ipc_job_request (d : Daemon) (req : JobRequest) (caller_uid : string)
  (now_ms : N) : list Effect * Daemon :=
  match idempotency d req with
  | Some effs => (effs, d)
  | None =>
      match Policy.check (policy d) req caller_uid with
      | Policy.Deny reason => ([Send (JobRejectedMsg (job_id req) reason)], d)
      | Policy.Allow => spawn_job d req
      | Policy.NeedsApproval reason detected_domains =>
          let '(ar, am) := Approval.submit (approval_mgr d) req caller_uid reason [] now_ms in
          ([Send (ApprovalRequestMsg ar); Broadcast (ApprovalRequestMsg ar);
            AwaitApproval (job_id req)], with_approval_mgr d am)
      end
  end.

(** What the approval waiter's [tokio::time::timeout(timeout, rx)]
    yields: a response, or nothing (the timer elapsed, or the sender was
    dropped). *)
Inductive WaitResult := Responded (resp : ApprovalResponse) | NoResponse.

(** The waiter spawned by [client.rs] [handle_job_request]. *)
Definition approval_waiter (d : Daemon) (req : JobRequest) (cuid : string)
  (r : WaitResult) (now now_ms : N) : list Effect * Daemon :=
  match r with
  | Responded resp =>
      if resp_approved resp then spawn_job d req
      else
        let sm := if String.eqb (resp_reason resp) EmptyString then session_mgr d
                  else Session.record_refusal (session_mgr d) cuid (tool req)
                         (resp_reason resp) now now_ms in
        let am := snd (Approval.expire (approval_mgr d) (job_id req)) in
        ([Send (JobRejectedMsg (job_id req)
                 (if String.eqb (resp_reason resp) EmptyString then "approval denied"
                  else "approval denied: " ++ resp_reason resp))],
         with_approval_mgr (with_session_mgr d sm) am)
  | NoResponse =>
      let am := snd (Approval.expire (approval_mgr d) (job_id req)) in
      ([Send (JobRejectedMsg (job_id req) "approval timed out")], with_approval_mgr d am)
  end.

(** The waiter spawned by [ipc.rs] [handle_ipc_conn]; [ar] is the
    [ApprovalRequest] returned by [submit]. *)
Definition ipc_approval_waiter (d : Daemon) (req : JobRequest) (cuid : string)
  (ar : ApprovalRequest) (r : WaitResult) : list Effect * Daemon :=
  match r with
  | Responded resp =>
      if resp_approved resp then
        let d := if resp_remember resp
                 then with_policy d (Policy.remember_approval (policy d) cuid (tool req)
                                       (ar_detected_domains ar))
                 else d in
        spawn_job d req
      else
        let am := snd (Approval.expire (approval_mgr d) (job_id req)) in
        ([Send (JobRejectedMsg (job_id req) "approval denied or timed out")],
         with_approval_mgr d am)
  | NoResponse =>
      let am := snd (Approval.expire (approval_mgr d) (job_id req)) in
      ([Send (JobRejectedMsg (job_id req) "approval denied or timed out")],
       with_approval_mgr d am)
  end.

(** The executor task of [spawn_job]: after [run_job], [remove] then
    [mark_completed] with the job's [(exit_code, error)]. *)
Definition complete_job (d : Daemon) (jid : string) (code : Z) (err : string) : Daemon :=
  with_registry d (Registry.mark_completed (Registry.remove (registry d) jid) jid code err).

(** [client.rs] [connect], the [ApprovalResponse] arm (caller ["cloud"]):
    resolve the pending entry (whose waiter then receives the response)
    and, for a denial with a reason, record a refusal for the resolved
    request's tool.  Returns what [resolve] returned. *)
Definition handle_approval_response (d : Daemon) (resp : ApprovalResponse) (now now_ms : N)
  : option (JobRequest * string) * Daemon :=
  let '(found, am) := Approval.resolve (approval_mgr d) resp in
  let d := with_approval_mgr d am in
  if negb (resp_approved resp) && negb (String.eqb (resp_reason resp) EmptyString) then
    match found with
    | Some (req, _) =>
        (found, with_session_mgr d (Session.record_refusal (session_mgr d) "cloud" (tool req)
                                      (resp_reason resp) now now_ms))
    | None => (found, d)
    end
  else (found, d).

End Pipeline.

(* ------------------------------------------------------------------ *)
(** ** Length-prefixed frames of the IPC socket ([ipc.rs]) *)

Module Frame.

(** The bound of [read_frame]: [16 * 1024 * 1024]. *)
Definition MAX_FRAME : N := 16 * 1024 * 1024.

Definition byte_of_N (n : N) : Byte.byte :=
  match Byte.of_N (n mod 256) with Some b => b | None => Byte.x00 end.

(** [write_u32(n)]: the four bytes of [n], most significant first. *)
Definition be32 (n : N) : list Byte.byte :=
  [byte_of_N (n / 16777216); byte_of_N (n / 65536); byte_of_N (n / 256); byte_of_N n].

(** [write_frame]: [data.len() as u32] (truncated to 32 bits), then the data. *)
Definition write_frame (data : list Byte.byte) : list Byte.byte :=
  app (be32 (N.of_nat (length data) mod 2 ^ 32)) data.

(** Why a read fails: [UnexpectedEof] (the stream ended, as when the
    client disconnects) or [InvalidData] ("frame too large"). *)
Inductive ReadError := UnexpectedEof | InvalidData.

(** [read_u32] on the bytes still to come on the stream. *)
Definition read_u32 (s : list Byte.byte) : option (N * list Byte.byte) :=
  match s with
  | b0 :: b1 :: b2 :: b3 :: rest =>
      Some (Byte.to_N b0 * 16777216 + Byte.to_N b1 * 65536 + Byte.to_N b2 * 256
            + Byte.to_N b3, rest)%N
  | _ => None
  end.

(** [read_frame] on the bytes the peer sends before closing: the
    length, the bound check, then [read_exact] of [len] bytes.  Returns
    the frame and the bytes after it. *)
Definition read_frame (s : list Byte.byte)
  : (list Byte.byte * list Byte.byte) + ReadError :=
  match read_u32 s with
  | None => inr UnexpectedEof
  | Some (len, rest) =>
      if (MAX_FRAME <? len)%N then inr InvalidData
      else if length rest <? N.to_nat len then inr UnexpectedEof
      else inl (firstn (N.to_nat len) rest, skipn (N.to_nat len) rest)
  end.

(** The read loop of [handle_ipc_conn]: frames are read until a read
    fails (either error ends the loop).  Each frame consumes at least
    four bytes, so [S (length s)] rounds always suffice ([read_all]). *)
Fixpoint read_frames (fuel : nat) (s : list Byte.byte) : list (list Byte.byte) * ReadError :=
  match fuel with
  | O => ([], UnexpectedEof)
  | S f =>
      match read_frame s with
      | inr e => ([], e)
      | inl (d, rest) => let '(ds, e) := read_frames f rest in (d :: ds, e)
      end
  end.

Definition read_all (s : list Byte.byte) : list (list Byte.byte) * ReadError :=
  read_frames (S (length s)) s.

End Frame.

(* ------------------------------------------------------------------ *)
(** ** Reconnect loop of [client.rs] [run] *)

Module Reconnect.

(** One round of the loop: after a connection attempt ending [Ok]
    ([true]) or in an error ([false]), the delay slept (seconds) and the
    next backoff ([(backoff * 2).min(30)] in [u64]). *)
Definition reconnect_step (backoff : N) (ok : bool) : N * N :=
  let backoff := if ok then 1%N else backoff in
  (backoff, N.min (wrap64 (backoff * 2)) 30).

(** The delays slept after a sequence of connection outcomes, starting
    from [backoff]. *)
Fixpoint reconnect_delays (backoff : N) (outcomes : list bool) : list N :=
  match outcomes with
  | [] => []
  | ok :: rest =>
      let '(delay, next) := reconnect_step backoff ok in delay :: reconnect_delays next rest
  end.

(** [run] starts with [backoff = 1]. *)
Definition run_delays (outcomes : list bool) : list N := reconnect_delays 1 outcomes.

End Reconnect.

(* ================================================================== *)
(** * Properties *)

Example url_host_https : url_host "https://evil.test/path" = Some "evil.test".
Proof. reflexivity. Qed.
Example url_host_userinfo : url_host "HTTP://me@Example.COM:8080/x" = Some "example.com".
Proof. reflexivity. Qed.
Example url_host_scp : url_host "git@github.com:org/repo" = None.
Proof. reflexivity. Qed.
Example url_host_bare : url_host "evil.test" = None.
Proof. reflexivity. Qed.

(* ------------------------------------------------------------------ *)
(** ** Facts about the policy evaluator *)

Module PolicyFacts.
Import Policy.

Lemma str_in_true x l : str_in x l = true <-> In x l.
Proof.
  unfold str_in. rewrite existsb_exists. split.
  - intros [y [Hy Heq]]. apply String.eqb_eq in Heq. subst. exact Hy.
  - intros H. exists x. split; [exact H | apply String.eqb_refl].
Qed.

Definition count (x : string) (l : list string) : nat := count_occ string_dec l x.

(** The step of the add loop of [apply_list_update]. *)
Definition add_step (l : list string) (item : string) : list string :=
  if str_in item l then l else app l [item].

Lemma count_app x l1 l2 : count x (app l1 l2) = count x l1 + count x l2.
Proof. unfold count. apply count_occ_app. Qed.

Lemma count_pos_in x l : 0 < count x l <-> In x l.
Proof. unfold count. rewrite (count_occ_In string_dec). lia. Qed.

Lemma count_single x y : count x [y] = if String.eqb y x then 1 else 0.
Proof.
  unfold count. simpl. destruct (string_dec y x) as [->|Hne].
  - now rewrite String.eqb_refl.
  - apply String.eqb_neq in Hne. now rewrite Hne.
Qed.

(** The add loop appends a suffix of added items and leaves a count
    that is positive unchanged; an absent item reaches count one exactly
    when it is added. *)
Lemma add_loop_spec add acc :
  (exists sfx, fold_left add_step add acc = app acc sfx
               /\ (forall y, In y sfx -> In y add)) /\
  (forall y, count y (fold_left add_step add acc)
             = if 0 <? count y acc then count y acc
               else if str_in y add then 1 else 0).
Proof.
  revert acc. induction add as [|a add IH]; intros acc; simpl.
  - split.
    + exists []. split; [now rewrite app_nil_r | intros y []].
    + intros y. destruct (0 <? count y acc) eqn:E; [reflexivity|].
      apply Nat.ltb_ge in E. lia.
  - destruct (IH (add_step acc a)) as [[sfx [Hs Hin]] Hc]. split.
    + unfold add_step in Hs |- *. destruct (str_in a acc) eqn:Ea.
      * exists sfx. split; [exact Hs | intros y Hy; right; auto].
      * exists (a :: sfx). rewrite Hs, <- app_assoc. split; [reflexivity|].
        intros y [->|Hy]; [left; reflexivity | right; auto].
    + intros y. rewrite Hc, (String.eqb_sym y a). unfold add_step.
      destruct (str_in a acc) eqn:Ea.
      * destruct (0 <? count y acc) eqn:Ey; [reflexivity|].
        destruct (String.eqb a y) eqn:Eay.
        -- apply String.eqb_eq in Eay. subst. apply str_in_true in Ea.
           apply count_pos_in in Ea. apply Nat.ltb_ge in Ey. lia.
        -- reflexivity.
      * rewrite count_app, count_single.
        destruct (String.eqb a y) eqn:Eay.
        -- apply String.eqb_eq in Eay. subst.
           assert (H0 : count y acc = 0).
           { destruct (count y acc) eqn:C; [reflexivity|].
             exfalso. assert (In y acc) by (apply count_pos_in; lia).
             apply str_in_true in H. congruence. }
           rewrite H0. reflexivity.
        -- rewrite Nat.add_0_r. reflexivity.
Qed.

(** What [apply_list_update] does, element-wise and in order. *)
Definition list_update_spec (old add remove new : list string) : Prop :=
  (exists sfx, new = app (List.filter (fun i => negb (str_in i remove)) old) sfx
               /\ (forall y, In y sfx -> In y add)) /\
  (forall y, count y new =
             if str_in y remove then (if str_in y add then 1 else 0)
             else if 0 <? count y old then count y old
             else if str_in y add then 1 else 0).

Lemma count_filter_removed y old remove :
  count y (List.filter (fun i => negb (str_in i remove)) old)
  = if str_in y remove then 0 else count y old.
Proof.
  induction old as [|a old IH]; simpl.
  - destruct (str_in y remove); reflexivity.
  - destruct (str_in a remove) eqn:Ea; simpl.
    + rewrite IH. destruct (str_in y remove) eqn:Ey; [reflexivity|].
      unfold count; simpl. destruct (string_dec a y) as [->|Hne]; congruence.
    + unfold count in *; simpl. rewrite IH.
      destruct (string_dec a y) as [->|Hne].
      * rewrite Ea. reflexivity.
      * reflexivity.
Qed.

Lemma apply_list_update_spec old add remove :
  list_update_spec old add remove (apply_list_update old add remove).
Proof.
  unfold apply_list_update.
  destruct (add_loop_spec add (List.filter (fun i => negb (str_in i remove)) old))
    as [Hs Hc].
  split; [exact Hs|]. intros y. fold add_step. rewrite Hc, count_filter_removed.
  destruct (str_in y remove); [reflexivity|]. reflexivity.
Qed.

End PolicyFacts.

Lemma denied_path_hit_none (cfg : PolicyConfig) (cwd0 : string) :
  denied_paths cfg = [] -> Policy.denied_path_hit cfg cwd0 = false.
Proof.
  intros H. unfold Policy.denied_path_hit. rewrite H. apply Bool.andb_false_r.
Qed.

(** C7: with allowed tools [curl] and allowed domains [example.com],
    [curl https://evil.test/path] needs approval with a reason citing
    [evil.test], and [curl https://example.com/path] is allowed. *)
Theorem policy_domain_extraction_scenario
  (caller jid cwd0 : string) (env0 : list (string * string)) (tmo secs : N) :
  let pc := Policy.new (mkPolicyConfig ["curl"] [] [] ["example.com"] secs) in
  Policy.check pc (mkJobRequest jid "curl" ["https://evil.test/path"] cwd0 env0 tmo) caller
    = Policy.NeedsApproval "domain(s) evil.test not in allowed domains" ["evil.test"]
  /\ Policy.check pc (mkJobRequest jid "curl" ["https://example.com/path"] cwd0 env0 tmo)
       caller = Policy.Allow.
Proof.
  intros pc. split; unfold Policy.check; simpl;
    rewrite denied_path_hit_none by reflexivity; reflexivity.
Qed.

Definition add_tool_update (x : string) : PolicyUpdate :=
  mkPolicyUpdate [x] [] [] [] [] [] [] [] 0.

(** C9 (counterexample): a configured allow list that already holds
    [x] twice keeps both copies after [apply_update(add=[x], remove=[])]
    is applied twice. *)
Lemma apply_update_twice_keeps_duplicate :
  let pc := Policy.new (mkPolicyConfig ["x"; "x"] [] [] [] 86400) in
  PolicyFacts.count "x"
    (allowed_tools (Policy.get_state
       (Policy.apply_update (Policy.apply_update pc (add_tool_update "x"))
          (add_tool_update "x")))) = 2.
Proof. reflexivity. Qed.

Lemma apply_update_fields (pc : Policy.PolicyChecker) (u : PolicyUpdate) :
  Policy.config (Policy.apply_update pc u) = Policy.apply_update_cfg (Policy.config pc) u.
Proof. reflexivity. Qed.

(** C9 (amended): on each of the four lists [apply_update] keeps the
    surviving old items in their order, then appends added items; an item
    that is removed is present once afterwards if it is also added and
    absent otherwise; an item that is kept keeps its old count (no second
    copy is added, existing copies are not merged); an item that was absent
    is present once if added.  The timeout is overwritten only by a
    positive value.  Hence, for an [x] present at most once, [add=[x]]
    applied once or twice leaves [x] present exactly once. *)
Theorem apply_update_remove_then_add (pc : Policy.PolicyChecker) (x : string)
  (Hone : PolicyFacts.count x (allowed_tools (Policy.config pc)) <= 1) :
  (forall (pc' : Policy.PolicyChecker) (u : PolicyUpdate),
     let c := Policy.config pc' in
     let c' := Policy.get_state (Policy.apply_update pc' u) in
     PolicyFacts.list_update_spec (allowed_tools c) (add_allowed_tools u)
       (remove_allowed_tools u) (allowed_tools c') /\
     PolicyFacts.list_update_spec (denied_tools c) (add_denied_tools u)
       (remove_denied_tools u) (denied_tools c') /\
     PolicyFacts.list_update_spec (denied_paths c) (add_denied_paths u)
       (remove_denied_paths u) (denied_paths c') /\
     PolicyFacts.list_update_spec (allowed_domains c) (add_allowed_domains u)
       (remove_allowed_domains u) (allowed_domains c') /\
     approval_timeout_secs c' =
       (if (0 <? upd_approval_timeout_secs u)%N then upd_approval_timeout_secs u
        else approval_timeout_secs c)) /\
  PolicyFacts.count x
    (allowed_tools (Policy.get_state (Policy.apply_update pc (add_tool_update x)))) = 1 /\
  PolicyFacts.count x
    (allowed_tools (Policy.get_state
       (Policy.apply_update (Policy.apply_update pc (add_tool_update x))
          (add_tool_update x)))) = 1.
Proof.
  assert (Hall : forall (pc' : Policy.PolicyChecker) (u : PolicyUpdate),
     let c := Policy.config pc' in
     let c' := Policy.get_state (Policy.apply_update pc' u) in
     PolicyFacts.list_update_spec (allowed_tools c) (add_allowed_tools u)
       (remove_allowed_tools u) (allowed_tools c') /\
     PolicyFacts.list_update_spec (denied_tools c) (add_denied_tools u)
       (remove_denied_tools u) (denied_tools c') /\
     PolicyFacts.list_update_spec (denied_paths c) (add_denied_paths u)
       (remove_denied_paths u) (denied_paths c') /\
     PolicyFacts.list_update_spec (allowed_domains c) (add_allowed_domains u)
       (remove_allowed_domains u) (allowed_domains c') /\
     approval_timeout_secs c' =
       (if (0 <? upd_approval_timeout_secs u)%N then upd_approval_timeout_secs u
        else approval_timeout_secs c)).
  { intros pc' u c c'. unfold c'. unfold Policy.get_state.
    rewrite apply_update_fields. unfold Policy.apply_update_cfg; simpl.
    repeat split; try apply PolicyFacts.apply_list_update_spec;
      apply PolicyFacts.apply_list_update_spec. }
  assert (Hstep : forall pc' : Policy.PolicyChecker,
            PolicyFacts.count x (allowed_tools (Policy.config pc')) <= 1 ->
            PolicyFacts.count x (allowed_tools (Policy.config
              (Policy.apply_update pc' (add_tool_update x)))) = 1).
  { intros pc' H. destruct (Hall pc' (add_tool_update x)) as [[_ Hc] _].
    unfold Policy.get_state in Hc. rewrite Hc. simpl.
    rewrite String.eqb_refl. simpl.
    destruct (0 <? PolicyFacts.count x (allowed_tools (Policy.config pc'))) eqn:E;
      [apply Nat.ltb_lt in E; lia | reflexivity]. }
  split; [exact Hall|]. unfold Policy.get_state.
  split; [apply Hstep, Hone|]. apply Hstep. rewrite Hstep by exact Hone. lia.
Qed.

Lemma apply_update_remove_then_add_witness :
  PolicyFacts.count "curl"
    (allowed_tools (Policy.config (Policy.new (mkPolicyConfig [] [] [] [] 86400)))) <= 1 /\
  PolicyFacts.count "curl"
    (allowed_tools (Policy.get_state
       (Policy.apply_update
          (Policy.apply_update (Policy.new (mkPolicyConfig [] [] [] [] 86400))
             (add_tool_update "curl")) (add_tool_update "curl")))) = 1.
Proof.
  split; [simpl; lia|].
  apply (apply_update_remove_then_add (Policy.new (mkPolicyConfig [] [] [] [] 86400))
           "curl"); simpl; lia.
Defined.

(* ------------------------------------------------------------------ *)
(** ** Scenario states *)

Module Scenario.
Import Pipeline.

(** A daemon whose [cloud] caller is in AutoAccept and whose policy
    denies [rm]. *)
Definition d_auto (pol : PolicyConfig) : Daemon :=
  mkDaemon Registry.new
    (snd (Session.set_mode (Session.new 60) "cloud" Session.AutoAccept 0 0 0))
    (Policy.new pol) (Approval.new 86400).

Definition deny_rm : PolicyConfig := mkPolicyConfig [] [] ["rm"] [] 86400.
Definition open_policy : PolicyConfig := mkPolicyConfig [] [] [] [] 86400.

Definition req_rm : JobRequest := mkJobRequest "J9" "rm" ["-rf"; "/tmp/x"] "" [] 0.
Definition req_echo : JobRequest := mkJobRequest "J1" "/bin/echo" ["hi"] "" [] 0.

Fixpoint pos_str (p : positive) : string :=
  match p with
  | xH => "1"
  | xO q => pos_str q ++ "0"
  | xI q => pos_str q ++ "1"
  end.

(** 1000 other job ids. *)
Definition filler_ids : list string :=
  map (fun n => "k" ++ pos_str (Pos.of_succ_nat n)) (seq 0 1000).

(** Accept a job on the controller channel and let it finish with exit 0. *)
Definition run_to_completion (d : Daemon) (jid : string) : Daemon :=
  complete_job (snd (handle_job_request d (mkJobRequest jid "/bin/true" [] "" [] 0)
                       "cloud" 0 0)) jid 0 "".

Definition d_J1_done : Daemon := run_to_completion (d_auto open_policy) "J1".
Definition d_J1_evicted : Daemon := fold_left run_to_completion filler_ids d_J1_done.

End Scenario.

(* ------------------------------------------------------------------ *)
(** ** Pipelines: C1, C2 *)

(** C1 (counterexample): on the controller channel a request for a tool
    the policy denies is spawned when the caller's session allows it. *)
Lemma controller_spawns_policy_denied_job :
  Policy.check (Pipeline.policy (Scenario.d_auto Scenario.deny_rm)) Scenario.req_rm "cloud"
    = Policy.Deny ("tool " ++ debug_fmt "rm" ++ " is in the deny list")
  /\ fst (Pipeline.handle_job_request (Scenario.d_auto Scenario.deny_rm) Scenario.req_rm
            "cloud" 5 5)
     = [Pipeline.Spawn Scenario.req_rm].
Proof. split; vm_compute; reflexivity. Qed.

(** C1 (amended): for a request not seen before, the controller channel
    decides by the session check alone (Deny: JobRejected with the
    session's reason; Allow: spawn; NeedsApproval: approval request sent,
    broadcast and awaited) and its behaviour does not depend on the
    policy at all; the operator channel decides by the policy check
    alone, in the same three ways. *)
Theorem controller_session_gated_ipc_policy_gated
  (d : Pipeline.Daemon) (req : JobRequest) (caller : string) (now now_ms : N)
  (Hnew : Registry.is_known (Pipeline.registry d) (job_id req) = Registry.Unknown) :
  (forall p' : Policy.PolicyChecker,
     Pipeline.handle_job_request (Pipeline.with_policy d p') req caller now now_ms
     = let '(effs, d') := Pipeline.handle_job_request d req caller now now_ms in
       (effs, Pipeline.with_policy d' p')) /\
  match fst (Session.check (Pipeline.session_mgr d) req caller now) with
  | Session.Deny r =>
      fst (Pipeline.handle_job_request d req caller now now_ms)
      = [Pipeline.Send (JobRejectedMsg (job_id req) r)]
  | Session.Allow =>
      fst (Pipeline.handle_job_request d req caller now now_ms) = [Pipeline.Spawn req]
  | Session.NeedsApproval reason _ =>
      exists ar, ar_reason ar = reason /\
        fst (Pipeline.handle_job_request d req caller now now_ms)
        = [Pipeline.Send (ApprovalRequestMsg ar); Pipeline.Broadcast (ApprovalRequestMsg ar);
           Pipeline.AwaitApproval (job_id req)]
  end /\
  match Policy.check (Pipeline.policy d) req caller with
  | Policy.Deny r =>
      fst (Pipeline.handle_ipc_job_request d req caller now_ms)
      = [Pipeline.Send (JobRejectedMsg (job_id req) r)]
  | Policy.Allow =>
      fst (Pipeline.handle_ipc_job_request d req caller now_ms) = [Pipeline.Spawn req]
  | Policy.NeedsApproval reason _ =>
      exists ar, ar_reason ar = reason /\
        fst (Pipeline.handle_ipc_job_request d req caller now_ms)
        = [Pipeline.Send (ApprovalRequestMsg ar); Pipeline.Broadcast (ApprovalRequestMsg ar);
           Pipeline.AwaitApproval (job_id req)]
  end.
Proof.
  unfold Pipeline.handle_job_request, Pipeline.handle_ipc_job_request,
    Pipeline.idempotency.
  simpl. rewrite Hnew. split; [|split].
  - intros p'. destruct (Session.check (Pipeline.session_mgr d) req caller now)
      as [[| r | r refs] sm]; try reflexivity.
  - destruct (Session.check (Pipeline.session_mgr d) req caller now)
      as [[| r | r refs] sm]; simpl; try reflexivity.
    eexists; split; [|reflexivity]. reflexivity.
  - destruct (Policy.check (Pipeline.policy d) req caller) as [| r | r doms];
      simpl; try reflexivity.
    eexists; split; [|reflexivity]. reflexivity.
Qed.

Lemma controller_session_gated_ipc_policy_gated_witness :
  Registry.is_known (Pipeline.registry (Scenario.d_auto Scenario.deny_rm)) "J9"
    = Registry.Unknown /\
  fst (Pipeline.handle_job_request (Scenario.d_auto Scenario.deny_rm) Scenario.req_rm
         "cloud" 5 5) = [Pipeline.Spawn Scenario.req_rm].
Proof.
  split; [vm_compute; reflexivity|].
  destruct (controller_session_gated_ipc_policy_gated (Scenario.d_auto Scenario.deny_rm)
              Scenario.req_rm "cloud" 5 5 ltac:(vm_compute; reflexivity)) as [_ [H _]].
  exact H.
Defined.

(** The reply to a duplicate request, as both channels build it. *)
Definition duplicate_reply (r : Registry.JobRegistry) (req : JobRequest)
  : list Pipeline.Effect :=
  match Registry.is_known r (job_id req) with
  | Registry.Completed c =>
      [Pipeline.Send (JobFinishedMsg (job_id req) (Registry.exit_code c) (Registry.error c))]
  | _ => []
  end.

(** C2 (counterexample): a completed job id is spawned again once 1000
    later completions have pushed it out of the completed cache. *)
Lemma completed_job_respawned_after_eviction :
  Registry.is_known (Pipeline.registry Scenario.d_J1_done) "J1"
    = Registry.Completed (Registry.mkCompletedJob 0 "")
  /\ fst (Pipeline.handle_job_request Scenario.d_J1_evicted Scenario.req_echo "cloud" 7 7)
     = [Pipeline.Spawn Scenario.req_echo].
Proof. split; vm_compute; reflexivity. Qed.

(** C2 (amended): on both channels, a request whose job id the registry
    reports as Running is dropped (nothing is sent, nothing changes), and
    one whose job id is in the completed cache gets a JobFinished built
    from the cached (exit_code, error) and nothing else; in neither case
    is anything spawned.  (The completed cache holds the last 1000
    completions: an evicted id is Unknown again.) *)
Theorem duplicate_job_not_respawned
  (d : Pipeline.Daemon) (req : JobRequest) (caller : string) (now now_ms : N)
  (Hseen : Registry.is_known (Pipeline.registry d) (job_id req) <> Registry.Unknown) :
  Pipeline.handle_job_request d req caller now now_ms
    = (duplicate_reply (Pipeline.registry d) req, d) /\
  Pipeline.handle_ipc_job_request d req caller now_ms
    = (duplicate_reply (Pipeline.registry d) req, d) /\
  (Registry.is_known (Pipeline.registry d) (job_id req) = Registry.Running ->
   duplicate_reply (Pipeline.registry d) req = []) /\
  (forall req', ~ In (Pipeline.Spawn req') (duplicate_reply (Pipeline.registry d) req)).
Proof.
  unfold Pipeline.handle_job_request, Pipeline.handle_ipc_job_request,
    Pipeline.idempotency, duplicate_reply.
  destruct (Registry.is_known (Pipeline.registry d) (job_id req)) as [| c |];
    [| | congruence]; repeat split; try reflexivity; try discriminate.
  - intros req' [].
  - intros req' [H | []]. discriminate.
Qed.

Lemma duplicate_job_not_respawned_witness :
  Registry.is_known (Pipeline.registry Scenario.d_J1_done) "J1" <> Registry.Unknown /\
  Pipeline.handle_job_request Scenario.d_J1_done Scenario.req_echo "cloud" 7 7
    = ([Pipeline.Send (JobFinishedMsg "J1" 0 "")], Scenario.d_J1_done).
Proof.
  split; [vm_compute; discriminate|].
  destruct (duplicate_job_not_respawned Scenario.d_J1_done Scenario.req_echo "cloud" 7 7
              ltac:(vm_compute; discriminate)) as [H _].
  rewrite H. vm_compute. reflexivity.
Defined.

(* ------------------------------------------------------------------ *)
(** ** Approvals: C4, C8 *)

Module ApprovalScenario.
Import Pipeline.

Definition curl_policy : PolicyConfig :=
  mkPolicyConfig ["curl"] [] [] ["example.com"] 86400.

Definition req_evil : JobRequest :=
  mkJobRequest "J7" "curl" ["https://evil.test/path"] "" [] 0.

Definition d_ipc : Daemon :=
  mkDaemon Registry.new (Session.new 60) (Policy.new curl_policy) (Approval.new 86400).

Definition denied_with_reason : ApprovalResponse :=
  mkApprovalResponse "J7" false false "too risky".

End ApprovalScenario.

(** C4 (code_bug): the policy detects [evil.test] for
    [curl https://evil.test/path], yet the [ApprovalRequest] that
    [submit] builds (here on the operator channel) carries no detected
    domain: [submit] stores [detected_domains: Vec::new()] for every
    input.  The other fields are those of the request and the call. *)
Theorem submit_drops_detected_domains :
  Policy.check (Pipeline.policy ApprovalScenario.d_ipc) ApprovalScenario.req_evil "uid:1000"
    = Policy.NeedsApproval "domain(s) evil.test not in allowed domains" ["evil.test"] /\
  (exists ar,
     fst (Pipeline.handle_ipc_job_request ApprovalScenario.d_ipc ApprovalScenario.req_evil
            "uid:1000" 1000)
     = [Pipeline.Send (ApprovalRequestMsg ar); Pipeline.Broadcast (ApprovalRequestMsg ar);
        Pipeline.AwaitApproval "J7"]
     /\ ar_detected_domains ar = []) /\
  (forall am req caller reason refusals now_ms,
     let ar := fst (Approval.submit am req caller reason refusals now_ms) in
     ar_detected_domains ar = [] /\
     ar_job_id ar = job_id req /\ ar_tool ar = tool req /\ ar_args ar = args req /\
     ar_cwd ar = cwd req /\ ar_reason ar = reason /\ ar_previous_refusals ar = refusals /\
     ar_caller_uid ar = caller /\
     ar_expires_ms ar
       = wrap64 (now_ms + wrap64 (Approval.default_timeout_secs am * 1000))).
Proof.
  split; [vm_compute; reflexivity|]. split.
  - eexists. split; [vm_compute; reflexivity | reflexivity].
  - intros am req caller reason refusals now_ms. simpl.
    repeat split; reflexivity.
Qed.

(** C8 (counterexample): on the operator channel a denial with a reason
    is reported as "approval denied or timed out" and no refusal is
    recorded. *)
Lemma ipc_denial_not_recorded :
  let ar := fst (Approval.submit (Pipeline.approval_mgr ApprovalScenario.d_ipc)
                   ApprovalScenario.req_evil "uid:1000" "strict" [] 0) in
  let '(effs, d') :=
    Pipeline.ipc_approval_waiter ApprovalScenario.d_ipc ApprovalScenario.req_evil "uid:1000"
      ar (Pipeline.Responded ApprovalScenario.denied_with_reason) in
  effs = [Pipeline.Send (JobRejectedMsg "J7" "approval denied or timed out")]
  /\ Session.refusal_log (Pipeline.session_mgr d') = [].
Proof. vm_compute. split; reflexivity. Qed.

(** C8 (amended): on the controller channel a denial records a refusal
    (for the request's tool, expiring after 24 h) when its reason is
    non-empty, expires the pending entry and sends JobRejected with
    "approval denied" or "approval denied: <reason>"; no response in time
    expires the entry and sends JobRejected "approval timed out".  On the
    operator channel a denial and a timeout both expire the entry and
    send JobRejected "approval denied or timed out", recording nothing. *)
Theorem approval_denial_and_timeout
  (d : Pipeline.Daemon) (req : JobRequest) (cuid : string) (ar : ApprovalRequest)
  (resp : ApprovalResponse) (now now_ms : N)
  (Hdenied : resp_approved resp = false) :
  let jid := job_id req in
  let pend' := delete jid (Approval.pending (Pipeline.approval_mgr d)) in
  let log := Session.refusal_log (Pipeline.session_mgr d) in
  (let '(effs, d') := Pipeline.approval_waiter d req cuid (Pipeline.Responded resp) now now_ms in
   effs = [Pipeline.Send (JobRejectedMsg jid
             (if String.eqb (resp_reason resp) EmptyString then "approval denied"
              else "approval denied: " ++ resp_reason resp))] /\
   Session.refusal_log (Pipeline.session_mgr d')
     = (if String.eqb (resp_reason resp) EmptyString then log
        else app log [Session.mkRefusalEntry (tool req) (resp_reason resp)
                        (now + dur_secs (24 * 3600))%N now_ms]) /\
   Approval.pending (Pipeline.approval_mgr d') = pend') /\
  (let '(effs, d') := Pipeline.approval_waiter d req cuid Pipeline.NoResponse now now_ms in
   effs = [Pipeline.Send (JobRejectedMsg jid "approval timed out")] /\
   Session.refusal_log (Pipeline.session_mgr d') = log /\
   Approval.pending (Pipeline.approval_mgr d') = pend') /\
  (forall r, r = Pipeline.Responded resp \/ r = Pipeline.NoResponse ->
   let '(effs, d') := Pipeline.ipc_approval_waiter d req cuid ar r in
   effs = [Pipeline.Send (JobRejectedMsg jid "approval denied or timed out")] /\
   Session.refusal_log (Pipeline.session_mgr d') = log /\
   Approval.pending (Pipeline.approval_mgr d') = pend').
Proof.
  intros jid pend' log. split; [|split].
  - simpl. rewrite Hdenied. simpl.
    destruct (String.eqb (resp_reason resp) EmptyString); repeat split.
  - simpl. repeat split.
  - intros r [-> | ->]; simpl; [rewrite Hdenied|]; repeat split.
Qed.

Lemma approval_denial_and_timeout_witness :
  resp_approved ApprovalScenario.denied_with_reason = false /\
  fst (Pipeline.approval_waiter ApprovalScenario.d_ipc ApprovalScenario.req_evil "cloud"
         (Pipeline.Responded ApprovalScenario.denied_with_reason) 0 0)
  = [Pipeline.Send (JobRejectedMsg "J7" "approval denied: too risky")].
Proof.
  split; [reflexivity|].
  pose proof (approval_denial_and_timeout ApprovalScenario.d_ipc ApprovalScenario.req_evil
                "cloud" (fst (Approval.submit (Pipeline.approval_mgr ApprovalScenario.d_ipc)
                   ApprovalScenario.req_evil "cloud" "strict" [] 0))
                ApprovalScenario.denied_with_reason 0 0 eq_refl) as [H _].
  revert H. vm_compute. intros [H _]. exact H.
Defined.

(* ------------------------------------------------------------------ *)
(** ** Sessions: C6, C10 *)

Module SessionFacts.
Import Session.

(** Every Trust session that the operations create carries an expiry. *)
Lemma reachable_trust_has_expiry (sm : SessionManager) :
  reachable sm ->
  forall c s, sessions sm !! c = Some s -> mode s = Trust -> is_Some (trust_expires s).
Proof.
  induction 1 as [d | sm c' _ IH | sm c' m mins now ms _ IH | sm req c' now _ IH
                 | sm c' t r now ms _ IH | sm t now _ IH]; intros c s Hs Hm.
  - simpl in Hs. rewrite lookup_empty in Hs. discriminate.
  - unfold register_caller in Hs. destruct (sessions sm !! c') eqn:E; [eauto|].
    simpl in Hs. destruct (decide (c' = c)) as [->|Hne].
    + rewrite lookup_insert_eq in Hs. injection Hs as <-. discriminate.
    + rewrite lookup_insert_ne in Hs by exact Hne. eauto.
  - unfold set_mode in Hs. simpl in Hs. destruct (decide (c' = c)) as [->|Hne].
    + rewrite lookup_insert_eq in Hs. injection Hs as <-. simpl in Hm |- *.
      subst m. simpl. eexists; reflexivity.
    + rewrite lookup_insert_ne in Hs by exact Hne. eauto.
  - unfold check in Hs. destruct (sessions sm !! c') as [s0|] eqn:E0; [|eauto].
    destruct (mode s0); simpl in Hs; eauto.
    destruct (trust_expires s0) as [e|]; [|eauto].
    destruct (e <=? now)%N; simpl in Hs; destruct (decide (c' = c)) as [->|Hne];
      try (rewrite lookup_insert_ne in Hs by exact Hne; eauto);
      rewrite lookup_insert_eq in Hs; injection Hs as <-; simpl in *;
      [discriminate | eexists; reflexivity].
  - simpl in Hs. eauto.
  - simpl in Hs. eauto.
Qed.

Lemma trust_duration_exact (mins : N) :
  (mins * 60 < two64)%N -> trust_duration mins = dur_secs (mins * 60).
Proof. intros H. unfold trust_duration, wrap64. rewrite N.mod_small by exact H. reflexivity. Qed.

End SessionFacts.

(** C6: for a caller in Trust mode, a check strictly before the expiry
    is allowed and moves the expiry to [now] plus the configured timeout
    ([Duration::from_secs(trust_timeout_mins * 60)], exactly
    [trust_timeout_mins] minutes whenever that product fits in [u64]);
    a check at or after the expiry is denied with "trust expired" and
    leaves the caller Inactive, as [get_session_state] then reports. *)
Theorem trust_session_sliding_expiry
  (sm : Session.SessionManager) (caller : string) (s : Session.CallerSession)
  (req : JobRequest) (now now' now_ms : N)
  (Hreach : Session.reachable sm)
  (Hs : Session.sessions sm !! caller = Some s)
  (Htrust : Session.mode s = Session.Trust) :
  exists expires,
    Session.trust_expires s = Some expires /\
    ((now < expires)%N ->
     fst (Session.check sm req caller now) = Session.Allow /\
     Session.sessions (snd (Session.check sm req caller now)) !! caller
       = Some (Session.mkCallerSession Session.Trust
                 (Some (now + Session.trust_duration (Session.trust_timeout_mins s))%N)
                 (Session.trust_timeout_mins s))) /\
    ((expires <= now)%N ->
     fst (Session.check sm req caller now) = Session.Deny "trust expired" /\
     Session.ss_mode (Session.get_session_state (snd (Session.check sm req caller now))
                        caller now' now_ms) = Session.Inactive) /\
    ((Session.trust_timeout_mins s * 60 < two64)%N ->
     Session.trust_duration (Session.trust_timeout_mins s)
     = dur_secs (Session.trust_timeout_mins s * 60)).
Proof.
  destruct (SessionFacts.reachable_trust_has_expiry sm Hreach caller s Hs Htrust)
    as [e He].
  exists e. split; [exact He|]. split; [|split].
  - intros Hlt. unfold Session.check. rewrite Hs, Htrust, He.
    replace (e <=? now)%N with false by (symmetry; apply N.leb_gt; exact Hlt).
    simpl. split; [reflexivity|]. apply lookup_insert_eq.
  - intros Hle. unfold Session.check. rewrite Hs, Htrust, He.
    replace (e <=? now)%N with true by (symmetry; apply N.leb_le; exact Hle).
    simpl. split; [reflexivity|]. unfold Session.get_session_state. simpl.
    rewrite lookup_insert_eq. reflexivity.
  - apply SessionFacts.trust_duration_exact.
Qed.

Definition trust_sm : Session.SessionManager :=
  snd (Session.set_mode (Session.new 60) "cloud" Session.Trust 5 0 0).

Lemma trust_session_sliding_expiry_witness :
  Session.reachable trust_sm /\
  Session.sessions trust_sm !! "cloud"
    = Some (Session.mkCallerSession Session.Trust (Some 300000000000%N) 5) /\
  fst (Session.check trust_sm (mkJobRequest "J2" "/bin/true" [] "" [] 0) "cloud"
         299999999999) = Session.Allow.
Proof.
  assert (Hr : Session.reachable trust_sm)
    by (apply Session.reach_set_mode, Session.reach_new).
  assert (Hs : Session.sessions trust_sm !! "cloud"
               = Some (Session.mkCallerSession Session.Trust (Some 300000000000%N) 5))
    by (vm_compute; reflexivity).
  split; [exact Hr|]. split; [exact Hs|].
  destruct (trust_session_sliding_expiry trust_sm "cloud" _
              (mkJobRequest "J2" "/bin/true" [] "" [] 0) 299999999999 0 0 Hr Hs eq_refl)
    as [e [He [Hallow _]]].
  injection He as <-. apply Hallow. vm_compute. reflexivity.
Defined.

(** C10: [record_refusal] ignores the caller it is given; within 24 h
    of recording, the refusal is returned by [get_refusals] for its tool
    and attached to the approval request of any caller in Strict mode,
    whoever recorded it. *)
Theorem refusal_log_shared_across_callers
  (sm : Session.SessionManager) (a b tl reason : string) (s : Session.CallerSession)
  (req : JobRequest) (t t' ms : N)
  (Hb : Session.sessions sm !! b = Some s)
  (Hstrict : Session.mode s = Session.Strict)
  (Htool : tool req = tl)
  (Hwin : (t' < t + dur_secs (24 * 3600))%N) :
  let sm1 := Session.record_refusal sm a tl reason t ms in
  (forall a', Session.record_refusal sm a' tl reason t ms = sm1) /\
  In (mkRefusalContext tl reason ms) (fst (Session.get_refusals sm1 tl t')) /\
  exists refs,
    fst (Session.check sm1 req b t')
    = Session.NeedsApproval ("strict mode: approval required for " ++ debug_fmt tl) refs
    /\ In (mkRefusalContext tl reason ms) refs.
Proof.
  intros sm1.
  assert (Hin : In (mkRefusalContext tl reason ms) (fst (Session.get_refusals sm1 tl t'))).
  { unfold Session.get_refusals, sm1, Session.record_refusal. simpl.
    apply in_map_iff.
    exists (Session.mkRefusalEntry tl reason (t + dur_secs (24 * 3600)) ms).
    split; [reflexivity|].
    apply filter_In. split; [|apply String.eqb_refl].
    apply filter_In. split.
    - apply in_or_app. right. left. reflexivity.
    - apply N.ltb_lt. exact Hwin. }
  split; [reflexivity|]. split; [exact Hin|].
  exists (fst (Session.get_refusals sm1 tl t')). split; [|exact Hin].
  unfold Session.check. simpl. rewrite Hb, Hstrict, Htool. reflexivity.
Qed.

Lemma refusal_log_shared_across_callers_witness :
  exists refs,
    fst (Session.check
           (Session.record_refusal
              (snd (Session.set_mode (Session.new 60) "uid:1000" Session.Strict 0 0 0))
              "cloud" "curl" "too risky" 10 10)
           (mkJobRequest "J3" "curl" [] "" [] 0) "uid:1000" 20)
    = Session.NeedsApproval ("strict mode: approval required for " ++ debug_fmt "curl") refs
    /\ In (mkRefusalContext "curl" "too risky" 10) refs.
Proof.
  destruct (refusal_log_shared_across_callers
              (snd (Session.set_mode (Session.new 60) "uid:1000" Session.Strict 0 0 0))
              "cloud" "uid:1000" "curl" "too risky"
              (Session.mkCallerSession Session.Strict None 60)
              (mkJobRequest "J3" "curl" [] "" [] 0) 10 20 10
              ltac:(vm_compute; reflexivity) eq_refl eq_refl
              ltac:(vm_compute; reflexivity)) as [_ [_ H]].
  exact H.
Defined.

(* ------------------------------------------------------------------ *)
(** ** Outbox: C5 *)

Module OutboxFacts.
Import Outbox.

Definition seq_lt (x y : N * list Byte.byte) : Prop := (fst x < fst y)%N.

Lemma in_drop {A} (n : nat) (l : list A) x : In x (drop n l) -> In x l.
Proof.
  revert l. induction n as [|n IH]; intros l H; [exact H|].
  destruct l as [|y l]; [exact H|]. right. apply IH. exact H.
Qed.

Lemma sorted_drop (n : nat) (l : list (N * list Byte.byte)) :
  StronglySorted seq_lt l -> StronglySorted seq_lt (drop n l).
Proof.
  revert l. induction n as [|n IH]; intros l H; [exact H|].
  destruct l as [|y l]; [exact H|]. apply IH. inversion H; assumption.
Qed.

Lemma sorted_snoc (l : list (N * list Byte.byte)) x :
  StronglySorted seq_lt l -> (forall y, In y l -> seq_lt y x) ->
  StronglySorted seq_lt (app l [x]).
Proof.
  induction l as [|y l IH]; intros Hs Hlt; simpl.
  - constructor; constructor.
  - inversion Hs as [|? ? Hs' Hf]; subst. constructor.
    + apply IH; [exact Hs'|]. intros z Hz. apply Hlt. right. exact Hz.
    + apply Forall_app. split; [exact Hf|]. constructor; [|constructor].
      apply Hlt. left. reflexivity.
Qed.

Lemma pop_acked_suffix pa (b : list (N * list Byte.byte)) :
  exists n, pop_acked pa b = drop n b.
Proof.
  induction b as [|[s d] b IH]; simpl.
  - exists 0. reflexivity.
  - destruct (s <=? pa)%N.
    + destruct IH as [n Hn]. exists (S n). exact Hn.
    + exists 0. reflexivity.
Qed.

(** What is left after the pop loop lies above the watermark. *)
Lemma pop_acked_above pa (b : list (N * list Byte.byte)) :
  StronglySorted seq_lt b -> forall x, In x (pop_acked pa b) -> (pa < fst x)%N.
Proof.
  induction b as [|[s d] b IH]; intros Hs x Hx; simpl in Hx; [contradiction|].
  inversion Hs as [|? ? Hs' Hf]; subst.
  destruct (s <=? pa)%N eqn:E; [exact (IH Hs' x Hx)|].
  apply N.leb_gt in E. destruct Hx as [<- | Hx]; [exact E|].
  rewrite List.Forall_forall in Hf. specialize (Hf x Hx). unfold seq_lt in Hf. simpl in Hf. lia.
Qed.

Lemma pop_acked_all pa (b : list (N * list Byte.byte)) :
  (forall x, In x b -> (fst x <= pa)%N) -> pop_acked pa b = [].
Proof.
  induction b as [|[s d] b IH]; intros H; simpl; [reflexivity|].
  replace (s <=? pa)%N with true.
  - apply IH. intros x Hx. apply H. right. exact Hx.
  - symmetry. apply N.leb_le. apply (H (s, d)). left. reflexivity.
Qed.

Section WithEncode.
Context {P : Type} (encode : Envelope P -> list Byte.byte).

(** After [prepare_all] of [es] from a state whose next seq is
    [wrap64 (j + 1)] and whose entries are at most [j], the entries are
    at most [j + length es] and the watermark is unchanged. *)
Lemma prepare_all_bound (es : list (Envelope P)) :
  forall (o : Outbox) (j : N),
    next_seq o = wrap64 (j + 1) ->
    (forall x, In x (buffer o) -> (fst x <= j)%N) ->
    (j + N.of_nat (length es) < two64)%N ->
    (forall x, In x (buffer (prepare_all encode o es)) ->
               (fst x <= j + N.of_nat (length es))%N) /\
    peer_ack (prepare_all encode o es) = peer_ack o.
Proof.
  induction es as [|e es IH]; intros o j Hn Hb Hlen; cbn [prepare_all length] in *.
  - split; [intros x Hx; specialize (Hb x Hx); lia | reflexivity].
  - rewrite Nat2N.inj_succ in Hlen |- *.
    assert (Hj : next_seq o = (j + 1)%N).
    { rewrite Hn. unfold wrap64. apply N.mod_small. lia. }
    destruct (IH (snd (prepare_outbound encode o e)) (j + 1)%N) as [IH1 IH2].
    + simpl. rewrite Hj. reflexivity.
    + simpl. intros x Hx. apply in_drop in Hx. apply in_app_or in Hx.
      destruct Hx as [Hx | [<- | []]]; [specialize (Hb x Hx); lia | simpl; lia].
    + lia.
    + split.
      * intros x Hx. specialize (IH1 x Hx). lia.
      * rewrite IH2. reflexivity.
Qed.

(** The invariant of reachable outbox states. *)
Lemma reachable_inv (o : Outbox) (ws : list N) :
  reachable encode o ws ->
  StronglySorted seq_lt (buffer o) /\
  (forall x, In x (buffer o) -> (fst x < next_seq o)%N) /\
  (forall V, In V ws -> (V <= peer_ack o)%N).
Proof.
  induction 1 as [m | o ws e _ [IHs [IHn IHw]] Hnext | o ws seq _ [IHs [IHn IHw]]
                 | o ws a _ [IHs [IHn IHw]]].
  - simpl. split; [constructor|]. split; [intros x []|].
    intros V [<- | []]. lia.
  - simpl. assert (Hw : wrap64 (next_seq o + 1) = (next_seq o + 1)%N).
    { unfold wrap64. apply N.mod_small. lia. }
    rewrite Hw. split; [|split].
    + apply sorted_drop, sorted_snoc; [exact IHs|]. intros y Hy. apply IHn. exact Hy.
    + intros x Hx. apply in_drop, in_app_or in Hx.
      destruct Hx as [Hx | [<- | []]]; [specialize (IHn x Hx); lia | simpl; lia].
    + exact IHw.
  - unfold on_recv. destruct (local_ack o <? seq)%N; simpl; auto.
  - unfold on_peer_ack. simpl. split; [|split].
    + destruct (pop_acked_suffix (if (peer_ack o <? a)%N then a else peer_ack o) (buffer o))
        as [n ->].
      apply sorted_drop. exact IHs.
    + intros x Hx. destruct (pop_acked_suffix (if (peer_ack o <? a)%N then a else peer_ack o)
                               (buffer o)) as [n Hn].
      rewrite Hn in Hx. apply in_drop in Hx. auto.
    + intros V [<- | HV]; [lia|]. specialize (IHw V HV).
      destruct (peer_ack o <? a)%N eqn:E; [apply N.ltb_lt in E; lia | exact IHw].
Qed.

End WithEncode.
End OutboxFacts.

(** C5: (i) from a fresh outbox, [n] envelopes sent through
    [prepare_outbound] followed by [on_peer_ack(n)] leave nothing
    pending ([n] ranging over [u64], the type of the ack); (ii) in every
    reachable state, right after [on_peer_ack], every buffered entry has
    a seq strictly above every value the [peer_ack] watermark has ever
    held, the one just written included. *)
Theorem outbox_peer_ack_clears {P : Type} (encode : Outbox.Envelope P -> list Byte.byte) :
  (forall (m : nat) (es : list (Outbox.Envelope P)),
     (N.of_nat (length es) < two64)%N ->
     Outbox.pending_count
       (Outbox.on_peer_ack (Outbox.prepare_all encode (Outbox.new m) es)
          (N.of_nat (length es))) = 0) /\
  (forall (o : Outbox.Outbox) (ws : list N) (a : N),
     Outbox.reachable encode o ws ->
     let o' := Outbox.on_peer_ack o a in
     forall V, In V (Outbox.peer_ack o' :: ws) ->
     forall x, In x (Outbox.buffer o') -> (V < fst x)%N).
Proof.
  split.
  - intros m es Hlen.
    destruct (OutboxFacts.prepare_all_bound encode es (Outbox.new m) 0
                eq_refl ltac:(intros x []) ltac:(lia)) as [Hb Hpa].
    unfold Outbox.pending_count, Outbox.on_peer_ack. simpl. rewrite Hpa. simpl.
    destruct (0 <? N.of_nat (length es))%N eqn:E.
    + rewrite OutboxFacts.pop_acked_all; [reflexivity|].
      intros x Hx. specialize (Hb x Hx). lia.
    + apply N.ltb_ge in E. rewrite OutboxFacts.pop_acked_all; [reflexivity|].
      intros x Hx. specialize (Hb x Hx). lia.
  - intros o ws a Hr o' V HV x Hx.
    destruct (OutboxFacts.reachable_inv encode _ _ (Outbox.reach_ack encode o ws a Hr))
      as [_ [_ Hw]].
    destruct (OutboxFacts.reachable_inv encode _ _ Hr) as [Hs _].
    specialize (Hw V HV).
    assert (Habove : (Outbox.peer_ack o' < fst x)%N).
    { unfold o', Outbox.on_peer_ack in Hx |- *. simpl in Hx |- *.
      exact (OutboxFacts.pop_acked_above _ _ Hs x Hx). }
    unfold o' in Habove. lia.
Qed.

Definition unit_encode (e : Outbox.Envelope unit) : list Byte.byte :=
  [Byte.x01].

Lemma outbox_peer_ack_clears_witness :
  (N.of_nat 3 < two64)%N /\
  Outbox.pending_count
    (Outbox.on_peer_ack
       (Outbox.prepare_all unit_encode (Outbox.new 10000)
          [Outbox.mkEnvelope 0 0 tt; Outbox.mkEnvelope 0 0 tt; Outbox.mkEnvelope 0 0 tt]) 3)
  = 0.
Proof.
  split; [vm_compute; reflexivity|].
  exact (proj1 (outbox_peer_ack_clears unit_encode) 10000
           [Outbox.mkEnvelope 0 0 tt; Outbox.mkEnvelope 0 0 tt; Outbox.mkEnvelope 0 0 tt]
           ltac:(vm_compute; reflexivity)).
Defined.

(* ------------------------------------------------------------------ *)
(** ** Executor: C3 *)

(** C3 (code_bug): [run_job] of [executor.rs] returns [()]; for
    [/bin/echo hi] exiting with code 0 the pair [(0, "")] leaves the
    executor only inside the JobFinished envelope sent on [tx], and no
    tuple is returned to the caller that [client.rs] and [ipc.rs]
    destructure as [(exit_code, error)] for [mark_completed]. *)
Theorem run_job_result_only_in_envelope :
  Executor.run_job Scenario.req_echo None (Executor.Exited (Some 0%Z))
  = (tt, [JobFinishedMsg "J1" 0 ""]).
Proof. reflexivity. Qed.

(* ================================================================== *)
(** * Further properties of the daemon's components *)

(* ------------------------------------------------------------------ *)
(** ** Job registry *)

Module RegistryFacts.
Import Registry.



Lemma drop_app_le' {A} k (l r : list A) : k <= length l -> drop k (app l r) = app (drop k l) r.
Proof. apply drop_app_le. Qed.

Lemma drop_drop' {A} a k (l : list A) : drop a (drop k l) = drop (a + k) l.
Proof. rewrite drop_drop. f_equal. lia. Qed.

Lemma length_drop' {A} k (l : list A) : length (drop k l) = length l - k.
Proof. apply length_drop. Qed.

Definition mark_all (r : JobRegistry) (done : list (string * CompletedJob)) : JobRegistry :=
  fold_left (fun r '(jid, c) => mark_completed r jid (exit_code c) (error c)) done r.

End RegistryFacts.

(** X1: [mark_completed] keeps the completed cache a FIFO of bounded
    length: from a cache within its bound, recording completions one
    after the other leaves exactly the last [max_completed] of all
    (old entries first, then the new ones), in order; the cache never
    exceeds the bound, and the running set is untouched. *)
Theorem completed_cache_fifo (r : Registry.JobRegistry)
  (done : list (string * Registry.CompletedJob))
  (Hbound : length (Registry.completed r) <= Registry.max_completed r) :
  let r' := RegistryFacts.mark_all r done in
  Registry.completed r'
  = drop (length (app (Registry.completed r) done) - Registry.max_completed r)
      (app (Registry.completed r) done) /\
  length (Registry.completed r') <= Registry.max_completed r /\
  Registry.jobs r' = Registry.jobs r /\
  Registry.max_completed r' = Registry.max_completed r.
Proof.
  unfold RegistryFacts.mark_all. revert r Hbound.
  induction done as [|[jid c] done IH]; intros r Hbound; simpl.
  - rewrite app_nil_r.
    replace (length (Registry.completed r) - Registry.max_completed r) with 0 by lia.
    rewrite drop_0. split; [reflexivity|]. split; [exact Hbound|]. split; reflexivity.
  - set (r1 := Registry.mark_completed r jid (Registry.exit_code c) (Registry.error c)).
    assert (Hl1 : length (Registry.completed r1) <= Registry.max_completed r1).
    { unfold r1, Registry.mark_completed; simpl. rewrite RegistryFacts.length_drop'. lia. }
    destruct (IH r1 Hl1) as [H1 [H2 [H3 H4]]].
    split; [|split; [exact H2 | split; [exact H3 | exact H4]]].
    rewrite H1.
    assert (Hm : Registry.max_completed r1 = Registry.max_completed r) by reflexivity.
    rewrite Hm.
    set (l := app (Registry.completed r) [(jid, Registry.mkCompletedJob
                                                (Registry.exit_code c) (Registry.error c))]).
    assert (Hc1 : Registry.completed r1 = drop (length l - Registry.max_completed r) l)
      by reflexivity.
    rewrite Hc1.
    assert (Hlen : length l = S (length (Registry.completed r)))
      by (unfold l; rewrite length_app; simpl; lia).
    rewrite <- (RegistryFacts.drop_app_le' (length l - Registry.max_completed r) l done)
      by lia.
    rewrite RegistryFacts.drop_drop'.
    replace (app (Registry.completed r) ((jid, c) :: done)) with (app l done)
      by (unfold l; destruct c; rewrite <- app_assoc; reflexivity).
    f_equal. rewrite !length_app, RegistryFacts.length_drop'.
    rewrite (length_app l done). lia.
Qed.

Lemma completed_cache_fifo_witness :
  length (Registry.completed Registry.new) <= Registry.max_completed Registry.new /\
  length (Registry.completed
            (RegistryFacts.mark_all Registry.new
               [("a", Registry.mkCompletedJob 0 ""); ("b", Registry.mkCompletedJob 1 "x")]))
  <= 1000.
Proof.
  split; [simpl; lia|].
  destruct (completed_cache_fifo Registry.new
              [("a", Registry.mkCompletedJob 0 ""); ("b", Registry.mkCompletedJob 1 "x")]
              ltac:(simpl; lia)) as [_ [H _]].
  exact H.
Defined.



(* ------------------------------------------------------------------ *)
(** ** Outbox *)

Module OutboxMore.
Import Outbox.

Lemma max_if (x y : N) : (if (x <? y)%N then y else x) = N.max x y.
Proof.
  destruct (x <? y)%N eqn:E.
  - apply N.ltb_lt in E. symmetry. apply N.max_r. lia.
  - apply N.ltb_ge in E. symmetry. apply N.max_l. lia.
Qed.

Lemma on_recv_eq (o : Outbox) (seq : N) :
  on_recv o seq
  = mkOutbox (next_seq o) (peer_ack o) (N.max (local_ack o) seq) (buffer o) (max_buffer o).
Proof.
  destruct o as [ns pa la b mb]. unfold on_recv; simpl.
  rewrite <- max_if. destruct (la <? seq)%N; reflexivity.
Qed.

Lemma on_peer_ack_eq (o : Outbox) (ack : N) :
  on_peer_ack o ack
  = mkOutbox (next_seq o) (N.max (peer_ack o) ack) (local_ack o)
      (pop_acked (N.max (peer_ack o) ack) (buffer o)) (max_buffer o).
Proof. unfold on_peer_ack. rewrite max_if. reflexivity. Qed.

Lemma pop_acked_pop_acked (x y : N) (b : list (N * list Byte.byte)) :
  (x <= y)%N -> pop_acked y (pop_acked x b) = pop_acked y b.
Proof.
  intros Hxy. induction b as [|[s d] b IH]; simpl; [reflexivity|].
  destruct (s <=? x)%N eqn:Ex.
  - rewrite IH. apply N.leb_le in Ex.
    replace (s <=? y)%N with true by (symmetry; apply N.leb_le; lia). reflexivity.
  - simpl. reflexivity.
Qed.



End OutboxMore.




(** X4: acknowledgements are order-insensitive and idempotent: two
    peer acks [a] then [b] leave the outbox as the single ack [max a b]
    does (a stale or repeated ack changes nothing), likewise for two
    received seqs, and processing a received seq and a peer ack commute;
    neither watermark ever decreases. *)
Theorem outbox_acks_order_insensitive (o : Outbox.Outbox) (a b : N) :
  Outbox.on_peer_ack (Outbox.on_peer_ack o a) b = Outbox.on_peer_ack o (N.max a b) /\
  Outbox.on_recv (Outbox.on_recv o a) b = Outbox.on_recv o (N.max a b) /\
  Outbox.on_recv (Outbox.on_peer_ack o a) b = Outbox.on_peer_ack (Outbox.on_recv o b) a /\
  (Outbox.peer_ack o <= Outbox.peer_ack (Outbox.on_peer_ack o a))%N /\
  (Outbox.local_ack o <= Outbox.local_ack (Outbox.on_recv o b))%N.
Proof.
  rewrite ?OutboxMore.on_peer_ack_eq, ?OutboxMore.on_recv_eq. simpl.
  rewrite ?OutboxMore.on_peer_ack_eq, ?OutboxMore.on_recv_eq. simpl.
  split; [|split; [|split; [|split]]].
  - rewrite OutboxMore.pop_acked_pop_acked by lia. rewrite N.max_assoc. reflexivity.
  - rewrite N.max_assoc. reflexivity.
  - reflexivity.
  - lia.
  - lia.
Qed.

(* ------------------------------------------------------------------ *)
(** ** Approvals *)

(** X5: a submitted approval is resolved once: [resolve] of a response
    for its job id returns the request and its caller and removes the
    entry (a previous entry of that job id included), so a second
    response finds nothing (first response wins) and the waiter's later
    [expire] reports that nothing was pending. *)
Theorem approval_resolve_first_wins (am : Approval.ApprovalManager) (req : JobRequest)
  (c reason : string) (refs : list RefusalContext) (ms : N) (resp : ApprovalResponse)
  (Hjid : resp_job_id resp = job_id req) :
  let am1 := snd (Approval.submit am req c reason refs ms) in
  let '(r1, am2) := Approval.resolve am1 resp in
  r1 = Some (req, c) /\
  fst (Approval.resolve am2 resp) = None /\
  fst (Approval.expire am2 (job_id req)) = false /\
  Approval.pending am2 = delete (job_id req) (Approval.pending am).
Proof.
  unfold Approval.submit, Approval.resolve, Approval.expire.
  cbn [snd fst Approval.pending Approval.default_timeout_secs].
  rewrite Hjid, lookup_insert_eq.
  cbn [snd fst Approval.pending Approval.default_timeout_secs Approval.pa_request
       Approval.pa_caller_uid].
  rewrite delete_insert_eq, lookup_delete_eq.
  split; [reflexivity|]. split; [reflexivity|]. split; reflexivity.
Qed.

Lemma approval_resolve_first_wins_witness :
  resp_job_id ApprovalScenario.denied_with_reason = job_id ApprovalScenario.req_evil /\
  fst (Approval.resolve
         (snd (Approval.submit (Approval.new 86400) ApprovalScenario.req_evil "uid:1000"
                 "r" [] 0)) ApprovalScenario.denied_with_reason)
  = Some (ApprovalScenario.req_evil, "uid:1000").
Proof.
  split; [reflexivity|].
  pose proof (approval_resolve_first_wins (Approval.new 86400) ApprovalScenario.req_evil
                "uid:1000" "r" [] 0 ApprovalScenario.denied_with_reason eq_refl) as H.
  simpl in H. destruct (Approval.resolve _ _) as [r1 am2] eqn:E. simpl.
  exact (proj1 H).
Defined.

(** X6: a JobRequest repeated while its first copy awaits approval is
    not treated as a duplicate: the registry does not know pending jobs,
    so on the controller channel (caller in Strict mode) the second copy
    is submitted for approval again, and the pending entry of the job id
    now holds the second request (the first entry, with its waiter's
    one-shot sender, is replaced).  The first waiter, whose sender was
    dropped, then takes the timeout arm, and its [expire] removes the
    entry of the second request: a response for the job id arriving
    afterwards finds nothing pending. *)
Theorem pending_request_not_deduplicated (d : Pipeline.Daemon) (req1 req2 : JobRequest)
  (c : string) (s : Session.CallerSession) (t1 ms1 t2 ms2 : N)
  (Hsame : job_id req2 = job_id req1)
  (Hnew : Registry.is_known (Pipeline.registry d) (job_id req1) = Registry.Unknown)
  (Hs : Session.sessions (Pipeline.session_mgr d) !! c = Some s)
  (Hstrict : Session.mode s = Session.Strict) :
  let '(effs1, d1) := Pipeline.handle_job_request d req1 c t1 ms1 in
  let '(effs2, d2) := Pipeline.handle_job_request d1 req2 c t2 ms2 in
  In (Pipeline.AwaitApproval (job_id req1)) effs1 /\
  In (Pipeline.AwaitApproval (job_id req1)) effs2 /\
  Registry.is_known (Pipeline.registry d2) (job_id req1) = Registry.Unknown /\
  option_map Approval.pa_request (Approval.pending (Pipeline.approval_mgr d2) !! job_id req1)
  = Some req2 /\
  (forall resp t3 ms3, resp_job_id resp = job_id req1 ->
     fst (Approval.resolve (Pipeline.approval_mgr
            (snd (Pipeline.approval_waiter d2 req1 c Pipeline.NoResponse t3 ms3))) resp)
     = None).
Proof.
  unfold Pipeline.handle_job_request at 1, Pipeline.idempotency at 1.
  rewrite Hnew. unfold Session.check at 1. rewrite Hs, Hstrict.
  cbn -[Pipeline.handle_job_request Session.get_refusals Approval.submit].
  destruct (Session.get_refusals (Pipeline.session_mgr d) (tool req1) t1) as [refs sm1] eqn:Eg.
  destruct (Approval.submit (Pipeline.approval_mgr d) req1 c
              ("strict mode: approval required for " ++ debug_fmt (tool req1)) refs ms1)
    as [ar1 am1] eqn:Es.
  unfold Pipeline.handle_job_request, Pipeline.idempotency. simpl.
  rewrite Hsame, Hnew.
  assert (Hs1 : Session.sessions sm1 !! c = Some s).
  { unfold Session.get_refusals in Eg. injection Eg as _ <-. exact Hs. }
  unfold Session.check. rewrite Hs1, Hstrict. simpl.
  destruct (Session.get_refusals sm1 (tool req2) t2) as [refs2 sm2].
  unfold Approval.submit. simpl.
  split; [right; right; left; reflexivity|].
  split; [right; right; left; reflexivity|].
  split; [exact Hnew|]. split.
  - rewrite lookup_insert_eq. reflexivity.
  - intros resp t3 ms3 Hr. unfold Pipeline.approval_waiter, Approval.expire, Approval.resolve.
    simpl. rewrite Hr, lookup_delete_eq. reflexivity.
Qed.

Definition d_strict : Pipeline.Daemon :=
  Pipeline.mkDaemon Registry.new
    (snd (Session.set_mode (Session.new 60) "cloud" Session.Strict 0 0 0))
    (Policy.new Scenario.open_policy) (Approval.new 86400).

Lemma pending_request_not_deduplicated_witness :
  Registry.is_known (Pipeline.registry d_strict) "J1" = Registry.Unknown /\
  option_map Approval.pa_request
    (Approval.pending (Pipeline.approval_mgr
       (snd (Pipeline.handle_job_request
               (snd (Pipeline.handle_job_request d_strict Scenario.req_echo "cloud" 0 0))
               (mkJobRequest "J1" "/bin/rm" ["-rf"; "/"] "" [] 0) "cloud" 1 1))) !! "J1")
  = Some (mkJobRequest "J1" "/bin/rm" ["-rf"; "/"] "" [] 0).
Proof.
  split; [vm_compute; reflexivity|].
  pose proof (pending_request_not_deduplicated d_strict Scenario.req_echo
                (mkJobRequest "J1" "/bin/rm" ["-rf"; "/"] "" [] 0) "cloud"
                (Session.mkCallerSession Session.Strict None 60) 0 0 1 1
                eq_refl ltac:(vm_compute; reflexivity) ltac:(vm_compute; reflexivity)
                eq_refl) as H.
  destruct (Pipeline.handle_job_request d_strict Scenario.req_echo "cloud" 0 0)
    as [effs1 d1] eqn:E1.
  cbn [snd].
  destruct (Pipeline.handle_job_request d1 (mkJobRequest "J1" "/bin/rm" ["-rf"; "/"] "" [] 0)
              "cloud" 1 1) as [effs2 d2] eqn:E2.
  cbn [snd]. exact (proj1 (proj2 (proj2 (proj2 H)))).
Defined.

(** X7: when the controller denies, with a reason, an approval that a
    controller-channel request is waiting for, the refusal is recorded
    twice: once by the [ApprovalResponse] arm of [connect] (which
    resolves the entry and records a refusal for its tool) and once more
    by the approval waiter that receives the response; the requester
    gets one JobRejected "approval denied: <reason>". *)
Theorem cloud_denial_records_refusal_twice (d : Pipeline.Daemon) (req : JobRequest)
  (pa : Approval.PendingApproval) (cuid : string) (resp : ApprovalResponse)
  (t1 ms1 t2 ms2 : N)
  (Hpend : Approval.pending (Pipeline.approval_mgr d) !! job_id req = Some pa)
  (Hreq : Approval.pa_request pa = req)
  (Hjid : resp_job_id resp = job_id req)
  (Hden : resp_approved resp = false)
  (Hreason : resp_reason resp <> EmptyString) :
  let '(found, d1) := Pipeline.handle_approval_response d resp t1 ms1 in
  let '(effs, d2) := Pipeline.approval_waiter d1 req cuid (Pipeline.Responded resp) t2 ms2 in
  found = Some (req, Approval.pa_caller_uid pa) /\
  effs = [Pipeline.Send (JobRejectedMsg (job_id req) ("approval denied: " ++ resp_reason resp))]
  /\
  Session.refusal_log (Pipeline.session_mgr d2)
  = app (Session.refusal_log (Pipeline.session_mgr d))
      [Session.mkRefusalEntry (tool req) (resp_reason resp) (t1 + dur_secs (24 * 3600))%N ms1;
       Session.mkRefusalEntry (tool req) (resp_reason resp) (t2 + dur_secs (24 * 3600))%N ms2].
Proof.
  assert (Hne : String.eqb (resp_reason resp) EmptyString = false)
    by (apply String.eqb_neq; exact Hreason).
  unfold Pipeline.handle_approval_response, Approval.resolve.
  rewrite Hjid, Hpend, Hden, Hne. simpl. rewrite Hreq.
  unfold Pipeline.approval_waiter. rewrite Hden, Hne. simpl.
  split; [reflexivity|]. split; [reflexivity|].
  rewrite <- app_assoc. reflexivity.
Qed.

Definition d_strict_pending : Pipeline.Daemon :=
  snd (Pipeline.handle_job_request d_strict Scenario.req_echo "cloud" 0 0).

Definition nope : ApprovalResponse := mkApprovalResponse "J1" false false "nope".

Lemma cloud_denial_records_refusal_twice_witness :
  length (Session.refusal_log (Pipeline.session_mgr
    (snd (Pipeline.approval_waiter
            (snd (Pipeline.handle_approval_response d_strict_pending nope 5 5))
            Scenario.req_echo "cloud" (Pipeline.Responded nope) 6 6)))) = 2.
Proof.
  pose proof (cloud_denial_records_refusal_twice d_strict_pending Scenario.req_echo
    (Approval.mkPendingApproval Scenario.req_echo "cloud"
       (fst (Approval.submit (Approval.new 86400) Scenario.req_echo "cloud"
               ("strict mode: approval required for " ++ debug_fmt "/bin/echo") [] 0)))
    "cloud" nope 5 5 6 6
    ltac:(vm_compute; reflexivity) eq_refl eq_refl eq_refl
    ltac:(vm_compute; discriminate)) as H.
  destruct (Pipeline.handle_approval_response d_strict_pending nope 5 5) as [found d1].
  cbn [snd].
  destruct (Pipeline.approval_waiter d1 Scenario.req_echo "cloud" (Pipeline.Responded nope) 6 6)
    as [effs d2].
  cbn [snd]. destruct H as [_ [_ H]]. rewrite H, length_app. vm_compute. reflexivity.
Defined.

(* ------------------------------------------------------------------ *)
(** ** The policy evaluator's decisions *)

Module PolicyMore.
Import Policy.


Lemma fold_domains_elem (ds : list string) (S : gset string) (x : string) :
  x ∈ fold_left (fun s d => {[ ("domain:" ++ d)%string ]} ∪ s) ds S
  <-> x ∈ S \/ exists d, In d ds /\ x = ("domain:" ++ d)%string.
Proof.
  revert S. induction ds as [|d ds IH]; intros S; simpl.
  - split; [tauto|]. intros [H | [d [[] _]]]. exact H.
  - rewrite IH. split.
    + intros [H | [d' [Hin ->]]].
      * apply elem_of_union in H as [H | H].
        -- apply elem_of_singleton in H. subst. right. exists d. tauto.
        -- left. exact H.
      * right. exists d'. tauto.
    + intros [H | [d' [[<- | Hin] ->]]].
      * left. set_solver.
      * left. set_solver.
      * right. exists d'. tauto.
Qed.


Lemma List_filter_nil {A} (f : A -> bool) (l : list A) :
  (forall x, In x l -> f x = false) -> List.filter f l = [].
Proof.
  induction l as [|a l IH]; intros Hf; [reflexivity|].
  simpl. rewrite (Hf a (or_introl eq_refl)). apply IH. intros x Hx. apply Hf. right. exact Hx.
Qed.

Lemma check_not_deny_tail (pc : PolicyChecker) (req : JobRequest) (c : string) :
  str_in (tool req) (denied_tools (config pc)) = false ->
  denied_path_hit (config pc) (cwd req) = false ->
  forall r, check pc req c <> Deny r.
Proof.
  intros H1 H2 r. unfold check. rewrite H1, H2.
  repeat case_match; discriminate.
Qed.


End PolicyMore.

(** X8: the policy's deny rules: [check] returns Deny exactly when the
    tool is in the deny list or a denied path is a prefix of the
    (non-empty) working directory, whatever the caller has had approved
    before; an empty string among the denied paths denies every request
    with a non-empty working directory; and with empty allowed-tools and
    allowed-domains lists [check] never asks for approval. *)
Theorem policy_deny_rules (pc : Policy.PolicyChecker) (req : JobRequest) (c : string) :
  ((exists r, Policy.check pc req c = Policy.Deny r) <->
   (str_in (tool req) (denied_tools (Policy.config pc)) = true \/
    Policy.denied_path_hit (Policy.config pc) (cwd req) = true)) /\
  (In EmptyString (denied_paths (Policy.config pc)) -> cwd req <> EmptyString ->
   exists r, Policy.check pc req c = Policy.Deny r) /\
  (allowed_tools (Policy.config pc) = [] -> allowed_domains (Policy.config pc) = [] ->
   forall r ds, Policy.check pc req c <> Policy.NeedsApproval r ds).
Proof.
  assert (Hiff : (exists r, Policy.check pc req c = Policy.Deny r) <->
   (str_in (tool req) (denied_tools (Policy.config pc)) = true \/
    Policy.denied_path_hit (Policy.config pc) (cwd req) = true)).
  { split.
    - intros [r Hr].
      destruct (str_in (tool req) (denied_tools (Policy.config pc))) eqn:E1; [left; reflexivity|].
      destruct (Policy.denied_path_hit (Policy.config pc) (cwd req)) eqn:E2; [right; reflexivity|].
      exfalso. exact (PolicyMore.check_not_deny_tail pc req c E1 E2 r Hr).
    - intros H. unfold Policy.check.
      destruct (str_in (tool req) (denied_tools (Policy.config pc))); [eexists; reflexivity|].
      destruct H as [H | H]; [discriminate|]. rewrite H. eexists; reflexivity. }
  split; [exact Hiff|]. split.
  - intros Hin Hne. apply Hiff. right. unfold Policy.denied_path_hit.
    apply andb_true_intro. split.
    + apply negb_true_iff, String.eqb_neq. exact Hne.
    + apply existsb_exists. exists EmptyString. split; [exact Hin|].
      unfold starts_with. destruct (cwd req); reflexivity.
  - intros Ht Hd r ds. unfold Policy.check. rewrite Ht, Hd.
    repeat case_match; try discriminate; simpl in *; congruence.
Qed.

(** X9: after [remember_approval pc c t ds], a request of caller [c]
    for tool [t] is allowed when [t] is not denied, its working directory
    is not denied, and each domain detected in its arguments is among the
    remembered [ds] or the allowed domains; the decisions for every other
    caller are unchanged. *)
Theorem remember_approval_allows (pc : Policy.PolicyChecker) (c t : string)
  (ds : list string) (req : JobRequest)
  (Ht : tool req = t)
  (Hnd : str_in t (denied_tools (Policy.config pc)) = false)
  (Hnp : Policy.denied_path_hit (Policy.config pc) (cwd req) = false)
  (Hds : forall d, In d (Policy.extract_domains t (args req)) ->
         In d ds \/ In d (allowed_domains (Policy.config pc))) :
  Policy.check (Policy.remember_approval pc c t ds) req c = Policy.Allow /\
  forall c' req', c' <> c ->
    Policy.check (Policy.remember_approval pc c t ds) req' c' = Policy.check pc req' c'.
Proof.
  split.
  2:{ intros c' req' Hne. unfold Policy.check, Policy.remember_approval. simpl.
      rewrite lookup_insert_ne by congruence. reflexivity. }
  set (S := fold_left (fun s d => {[ ("domain:" ++ d)%string ]} ∪ s) ds
              ({[ ("tool:" ++ t)%string ]} ∪ default ∅ (Policy.session_approvals pc !! c))).
  assert (HS : Policy.session_approvals (Policy.remember_approval pc c t ds) !! c = Some S).
  { unfold Policy.remember_approval. simpl. rewrite lookup_insert_eq. reflexivity. }
  assert (Htool : bool_decide (("tool:" ++ t)%string ∈ S) = true).
  { apply bool_decide_eq_true. apply PolicyMore.fold_domains_elem. left. set_solver. }
  unfold Policy.check. rewrite HS. simpl. rewrite Ht, Hnd, Hnp, Htool, !orb_true_r. simpl.
  destruct (negb _ && negb _); [|reflexivity].
  rewrite PolicyMore.List_filter_nil; [reflexivity|].
  intros d Hd. destruct (Hds d Hd) as [Hin | Hin].
  - assert (Hm : str_in d (filter (fun d0 => ("domain:" ++ d0)%string ∈ S)
                             (Policy.extract_domains t (args req))) = true).
    { apply PolicyFacts.str_in_true. apply list_elem_of_In, list_elem_of_filter. split.
      - apply PolicyMore.fold_domains_elem. right. exists d. tauto.
      - apply list_elem_of_In. exact Hd. }
    rewrite Hm. apply andb_false_r.
  - apply PolicyFacts.str_in_true in Hin. rewrite Hin. reflexivity.
Qed.

Definition curl_example : JobRequest :=
  mkJobRequest "J8" "curl" ["https://example.com/a"; "https://evil.test/b"] "" [] 0.

Lemma remember_approval_allows_witness :
  Policy.check (Policy.new ApprovalScenario.curl_policy) curl_example "uid:1000" <> Policy.Allow /\
  Policy.check (Policy.remember_approval (Policy.new ApprovalScenario.curl_policy) "uid:1000"
                  "curl" ["evil.test"]) curl_example "uid:1000" = Policy.Allow.
Proof.
  split; [vm_compute; discriminate|].
  refine (proj1 (remember_approval_allows (Policy.new ApprovalScenario.curl_policy) "uid:1000"
                   "curl" ["evil.test"] curl_example eq_refl
                   ltac:(vm_compute; reflexivity) ltac:(vm_compute; reflexivity) _)).
  intros d Hd. vm_compute in Hd.
  destruct Hd as [<- | [<- | []]]; [right; left; reflexivity | left; left; reflexivity].
Defined.



(* ------------------------------------------------------------------ *)
(** ** Sessions *)

(** X11: registering a caller changes no decision and no reported
    state: for every caller, [check] decides the same and
    [get_session_state] reports the same after [register_caller] (an
    unregistered caller and a freshly registered one are both Inactive
    with the default timeout), and registering a known caller leaves the
    manager unchanged. *)
Theorem register_caller_keeps_decisions (sm : Session.SessionManager) (c c' : string)
  (req : JobRequest) (now now_ms : N) :
  fst (Session.check (Session.register_caller sm c) req c' now)
  = fst (Session.check sm req c' now) /\
  Session.get_session_state (Session.register_caller sm c) c' now now_ms
  = Session.get_session_state sm c' now now_ms /\
  (is_Some (Session.sessions sm !! c) -> Session.register_caller sm c = sm).
Proof.
  unfold Session.register_caller.
  destruct (Session.sessions sm !! c) as [s|] eqn:Ec.
  { split; [reflexivity|]. split; reflexivity. }
  split; [|split; [|intros [x Hx]; discriminate]].
  - unfold Session.check, Session.get_refusals. simpl.
    destruct (String.eq_dec c' c) as [-> | Hne].
    + rewrite lookup_insert_eq, Ec. reflexivity.
    + rewrite lookup_insert_ne by congruence.
      destruct (Session.sessions sm !! c') as [s|]; [|reflexivity].
      destruct (Session.mode s); try reflexivity.
      destruct (Session.trust_expires s); [|reflexivity].
      case_match; reflexivity.
  - unfold Session.get_session_state. simpl.
    destruct (String.eq_dec c' c) as [-> | Hne].
    + rewrite lookup_insert_eq, Ec. reflexivity.
    + rewrite lookup_insert_ne by congruence. reflexivity.
Qed.

(** X12: the state returned by [set_mode] is the one
    [get_session_state] reports right after, at the same clock readings,
    unless trust is set with a zero duration; its timeout is the given
    one, or the default timeout when zero minutes are given. *)
Theorem set_mode_reports_session_state (sm : Session.SessionManager) (c : string)
  (m : Session.SessionMode) (mins now now_ms : N)
  (H : Session.SessionMode_eqb m Session.Trust = false \/
       Session.trust_duration
         (if (mins =? 0)%N then Session.default_trust_timeout_mins sm else mins) <> 0%N) :
  fst (Session.set_mode sm c m mins now now_ms)
  = Session.get_session_state (snd (Session.set_mode sm c m mins now now_ms)) c now now_ms /\
  Session.ss_trust_timeout_mins (fst (Session.set_mode sm c m mins now now_ms))
  = (if (mins =? 0)%N then Session.default_trust_timeout_mins sm else mins).
Proof.
  split; [|reflexivity].
  unfold Session.set_mode, Session.get_session_state. simpl. rewrite lookup_insert_eq. simpl.
  destruct (Session.SessionMode_eqb m Session.Trust); [|reflexivity].
  destruct H as [H | H]; [discriminate|].
  replace (now <? now + _)%N with true; [reflexivity|].
  symmetry. apply N.ltb_lt. lia.
Qed.

Lemma set_mode_reports_session_state_witness :
  fst (Session.set_mode (Session.new 60) "cloud" Session.Trust 0 100 7)
  = Session.get_session_state
      (snd (Session.set_mode (Session.new 60) "cloud" Session.Trust 0 100 7)) "cloud" 100 7.
Proof.
  apply (set_mode_reports_session_state (Session.new 60) "cloud" Session.Trust 0 100 7).
  right. vm_compute. discriminate.
Defined.

(** X13: trust set for a number of minutes whose product with 60 wraps
    to zero in [u64] (any multiple of 2^62) expires at once: [set_mode]
    reports the expiry [now_ms], [get_session_state] reports none, and
    the first [check] at or after that instant denies with "trust
    expired" and leaves the caller Inactive. *)
Theorem trust_wrapped_timeout_expires_at_once (sm : Session.SessionManager) (c : string)
  (mins now now_ms now' now_ms' : N) (req : JobRequest)
  (Hmins : mins <> 0%N) (Hwrap : ((mins * 60) mod two64 = 0)%N) (Hle : (now <= now')%N) :
  let '(st, sm1) := Session.set_mode sm c Session.Trust mins now now_ms in
  Session.ss_trust_expires_ms st = wrap64 now_ms /\
  Session.ss_trust_expires_ms (Session.get_session_state sm1 c now now_ms) = 0%N /\
  fst (Session.check sm1 req c now') = Session.Deny "trust expired" /\
  Session.ss_mode (Session.get_session_state (snd (Session.check sm1 req c now')) c now' now_ms')
  = Session.Inactive.
Proof.
  assert (Hd : Session.trust_duration mins = 0%N).
  { unfold Session.trust_duration, wrap64. rewrite Hwrap. reflexivity. }
  assert (Hm : (mins =? 0)%N = false) by (apply N.eqb_neq; exact Hmins).
  unfold Session.set_mode. rewrite Hm. simpl. rewrite Hd, N.add_0_r, N.sub_diag. simpl.
  rewrite N.add_0_r. split; [reflexivity|].
  unfold Session.get_session_state, Session.check. simpl. rewrite lookup_insert_eq. simpl.
  rewrite N.ltb_irrefl. split; [reflexivity|].
  replace (now <=? now')%N with true by (symmetry; apply N.leb_le; exact Hle).
  simpl. rewrite lookup_insert_eq. split; reflexivity.
Qed.

Lemma trust_wrapped_timeout_expires_at_once_witness :
  fst (Session.check (snd (Session.set_mode (Session.new 60) "cloud" Session.Trust (2 ^ 62)
                             5 5)) Scenario.req_echo "cloud" 5)
  = Session.Deny "trust expired".
Proof.
  pose proof (trust_wrapped_timeout_expires_at_once (Session.new 60) "cloud" (2 ^ 62) 5 5 5 5
                Scenario.req_echo ltac:(vm_compute; discriminate) ltac:(vm_compute; reflexivity)
                ltac:(lia)) as H.
  destruct (Session.set_mode (Session.new 60) "cloud" Session.Trust (2 ^ 62) 5 5)
    as [st sm1] eqn:E.
  cbn [snd]. exact (proj1 (proj2 (proj2 H))).
Defined.

(** X14: [query_sessions] with an empty caller id lists, once each, the
    state of every registered caller, as [get_session_state] reports it
    at the same clock readings, and nothing else. *)
Theorem query_sessions_lists_all (sm : Session.SessionManager) (now now_ms : N) :
  (forall st, In st (Session.query_sessions sm EmptyString now now_ms) <->
     exists c s, Session.sessions sm !! c = Some s /\
                 st = Session.get_session_state sm c now now_ms) /\
  NoDup (map Session.ss_caller_uid (Session.query_sessions sm EmptyString now now_ms)).
Proof.
  unfold Session.query_sessions. simpl. split.
  - intros st. rewrite in_map_iff. split.
    + intros [[c s] [<- Hin]]. apply list_elem_of_In, elem_of_map_to_list in Hin.
      exists c, s. split; [exact Hin|]. unfold Session.get_session_state. rewrite Hin.
      reflexivity.
    + intros [c [s [Hs ->]]]. exists (c, s). split.
      * unfold Session.get_session_state. rewrite Hs. reflexivity.
      * apply list_elem_of_In, elem_of_map_to_list. exact Hs.
  - rewrite map_map.
    replace (map _ (map_to_list (Session.sessions sm))) with
      ((map_to_list (Session.sessions sm)).*1).
    + apply NoDup_fst_map_to_list.
    + apply map_ext. intros [c s]. reflexivity.
Qed.

(* ------------------------------------------------------------------ *)
(** ** IPC frames and the reconnect loop *)

Module FrameFacts.
Import Frame.

Lemma to_N_byte_of_N (n : N) : Byte.to_N (byte_of_N n) = (n mod 256)%N.
Proof.
  unfold byte_of_N. destruct (Byte.of_N (n mod 256)) as [b|] eqn:E.
  - apply Byte.to_of_N. exact E.
  - apply Byte.of_N_None_iff in E. pose proof (N.mod_lt n 256 ltac:(discriminate)). lia.
Qed.

Lemma read_u32_be32 (n : N) (rest : list Byte.byte) :
  (n < 2 ^ 32)%N -> read_u32 (app (be32 n) rest) = Some (n, rest).
Proof.
  intros Hn. unfold be32. simpl. rewrite !to_N_byte_of_N. f_equal. f_equal.
  replace 65536%N with (256 * 256)%N by reflexivity.
  replace 16777216%N with (256 * 256 * 256)%N by reflexivity.
  rewrite <- !N.Div0.div_div.
  pose proof (N.div_mod n 256 ltac:(discriminate)) as E0.
  pose proof (N.div_mod (n / 256) 256 ltac:(discriminate)) as E1.
  pose proof (N.div_mod (n / 256 / 256) 256 ltac:(discriminate)) as E2.
  assert (H3 : (n / 256 / 256 / 256 < 256)%N).
  { rewrite !N.Div0.div_div. apply N.Div0.div_lt_upper_bound.
    simpl in *. lia. }
  rewrite (N.mod_small (n / 256 / 256 / 256) 256 H3).
  pose proof (N.mod_lt n 256 ltac:(discriminate)).
  lia.
Qed.

Lemma frame_len (data : list Byte.byte) :
  (N.of_nat (length data) <= MAX_FRAME)%N ->
  (N.of_nat (length data) mod 2 ^ 32 = N.of_nat (length data))%N.
Proof. intros H. apply N.mod_small. unfold MAX_FRAME in H. simpl in *. lia. Qed.

Lemma read_frame_write_frame (data rest : list Byte.byte) :
  (N.of_nat (length data) <= MAX_FRAME)%N ->
  read_frame (app (write_frame data) rest) = inl (data, rest).
Proof.
  intros H. unfold read_frame, write_frame. rewrite frame_len by exact H.
  rewrite <- app_assoc, read_u32_be32.
  2:{ unfold MAX_FRAME in H. simpl in *. lia. }
  replace (MAX_FRAME <? N.of_nat (length data))%N with false
    by (symmetry; apply N.ltb_ge; exact H).
  rewrite Nat2N.id, length_app.
  replace (length data + length rest <? length data) with false
    by (symmetry; apply Nat.ltb_ge; lia).
  rewrite take_app_length, drop_app_length. reflexivity.
Qed.

Lemma read_frame_short (s : list Byte.byte) : length s < 4 -> read_frame s = inr UnexpectedEof.
Proof. intros H. destruct s as [|a [|b [|c [|d s]]]]; try reflexivity. simpl in H. lia. Qed.

Lemma length_be32 (n : N) : length (be32 n) = 4.
Proof. reflexivity. Qed.

Lemma length_write_frame (data : list Byte.byte) :
  length (write_frame data) = 4 + length data.
Proof. unfold write_frame. rewrite length_app. reflexivity. Qed.

Lemma length_write_frames (fs : list (list Byte.byte)) :
  length fs <= length (concat (map write_frame fs)).
Proof.
  induction fs as [|f fs IH]; [simpl; lia|].
  cbn [map concat]. rewrite length_app, length_write_frame. simpl. lia.
Qed.

Lemma read_frames_write_frames (fs : list (list Byte.byte)) (fuel : nat) :
  Forall (fun d => N.of_nat (length d) <= MAX_FRAME)%N fs -> length fs < fuel ->
  read_frames fuel (concat (map write_frame fs)) = (fs, UnexpectedEof).
Proof.
  revert fuel. induction fs as [|f fs IH]; intros fuel Hall Hlt.
  - destruct fuel; [lia|]. reflexivity.
  - destruct fuel as [|fuel]; [simpl in Hlt; lia|]. inversion Hall as [|? ? Hf Hfs]; subst.
    cbn [map concat read_frames]. rewrite read_frame_write_frame by exact Hf.
    rewrite IH by (simpl in Hlt; lia || exact Hfs). reflexivity.
Qed.

End FrameFacts.

(** X15: a frame written by [write_frame] is read back by [read_frame]
    unchanged, whatever follows it on the stream, when its length is
    within the 16 MiB bound. *)
Theorem ipc_frame_roundtrip (data rest : list Byte.byte)
  (Hlen : (N.of_nat (length data) <= Frame.MAX_FRAME)%N) :
  Frame.read_frame (app (Frame.write_frame data) rest) = inl (data, rest).
Proof. apply FrameFacts.read_frame_write_frame. exact Hlen. Qed.

Lemma ipc_frame_roundtrip_witness :
  Frame.read_frame (app (Frame.write_frame [Byte.x68; Byte.x69]) [Byte.x00])
  = inl ([Byte.x68; Byte.x69], [Byte.x00]).
Proof. apply ipc_frame_roundtrip. vm_compute. discriminate. Defined.

(** X16: how [read_frame] fails: fewer than four bytes, or a frame cut
    anywhere before its end (the peer closed mid-frame), give
    [UnexpectedEof], which ends the read loop as a disconnect; a frame
    whose length is above 16 MiB (and fits the u32 prefix) is refused
    with [InvalidData] before any of its bytes is read. *)
Theorem ipc_read_frame_errors (s data rest : list Byte.byte) (k : nat) :
  (length s < 4 -> Frame.read_frame s = inr Frame.UnexpectedEof) /\
  ((N.of_nat (length data) <= Frame.MAX_FRAME)%N -> k < length (Frame.write_frame data) ->
   Frame.read_frame (firstn k (Frame.write_frame data)) = inr Frame.UnexpectedEof) /\
  ((Frame.MAX_FRAME < N.of_nat (length data) < 2 ^ 32)%N ->
   Frame.read_frame (app (Frame.write_frame data) rest) = inr Frame.InvalidData).
Proof.
  split; [apply FrameFacts.read_frame_short|]. split.
  - intros Hlen Hk. destruct (Nat.lt_ge_cases k 4) as [Hk4 | Hk4].
    { apply FrameFacts.read_frame_short. rewrite length_firstn. lia. }
    unfold Frame.write_frame in *. rewrite FrameFacts.frame_len in * by exact Hlen.
    rewrite firstn_app, FrameFacts.length_be32.
    rewrite firstn_all2 by (rewrite FrameFacts.length_be32; lia).
    unfold Frame.read_frame. rewrite FrameFacts.read_u32_be32.
    2:{ unfold Frame.MAX_FRAME in Hlen. simpl in *. lia. }
    replace (Frame.MAX_FRAME <? N.of_nat (length data))%N with false
      by (symmetry; apply N.ltb_ge; exact Hlen).
    rewrite Nat2N.id, length_firstn. rewrite length_app in Hk. simpl in Hk.
    replace (Nat.min (k - 4) (length data) <? length data) with true; [reflexivity|].
    symmetry. apply Nat.ltb_lt. lia.
  - intros [Hlo Hhi]. unfold Frame.read_frame, Frame.write_frame.
    rewrite (N.mod_small _ _ Hhi), <- app_assoc, FrameFacts.read_u32_be32 by exact Hhi.
    replace (Frame.MAX_FRAME <? N.of_nat (length data))%N with true
      by (symmetry; apply N.ltb_lt; exact Hlo).
    reflexivity.
Qed.

(** X17: the read loop of [handle_ipc_conn] recovers, in order, every
    frame of a stream of frames written by [write_frame] within the
    bound, and then stops at the end of the stream as on a disconnect. *)
Theorem ipc_frames_stream_roundtrip (fs : list (list Byte.byte))
  (Hall : Forall (fun d => N.of_nat (length d) <= Frame.MAX_FRAME)%N fs) :
  Frame.read_all (concat (map Frame.write_frame fs)) = (fs, Frame.UnexpectedEof).
Proof.
  unfold Frame.read_all. apply FrameFacts.read_frames_write_frames; [exact Hall|].
  pose proof (FrameFacts.length_write_frames fs). lia.
Qed.

Lemma ipc_frames_stream_roundtrip_witness :
  Frame.read_all (concat (map Frame.write_frame [[Byte.x61]; []; [Byte.x62; Byte.x63]]))
  = ([[Byte.x61]; []; [Byte.x62; Byte.x63]], Frame.UnexpectedEof).
Proof.
  apply ipc_frames_stream_roundtrip.
  repeat constructor; vm_compute; discriminate.
Defined.

Module ReconnectFacts.
Import Reconnect.

Lemma step_bounds (b : N) (ok : bool) :
  (1 <= b <= 30)%N ->
  (1 <= fst (reconnect_step b ok) <= 30)%N /\ (1 <= snd (reconnect_step b ok) <= 30)%N.
Proof.
  intros Hb. unfold reconnect_step, wrap64, two64. simpl.
  destruct ok; simpl; rewrite N.mod_small by lia; lia.
Qed.

Lemma delays_bounded (b : N) (outs : list bool) :
  (1 <= b <= 30)%N -> forall x, In x (reconnect_delays b outs) -> (1 <= x <= 30)%N.
Proof.
  revert b. induction outs as [|ok outs IH]; intros b Hb x Hx; [destruct Hx|].
  cbn [reconnect_delays] in Hx. destruct (step_bounds b ok Hb) as [H1 H2].
  destruct (reconnect_step b ok) as [delay next]. cbn [fst snd] in *.
  destruct Hx as [<- | Hx]; [exact H1 | exact (IH next H2 x Hx)].
Qed.

Lemma delays_app (b : N) (l1 l2 : list bool) :
  exists b', reconnect_delays b (app l1 l2) = app (reconnect_delays b l1) (reconnect_delays b' l2).
Proof.
  revert b. induction l1 as [|ok l1 IH]; intros b; [exists b; reflexivity|].
  cbn [app reconnect_delays]. destruct (reconnect_step b ok) as [delay next].
  destruct (IH next) as [b' E]. exists b'. rewrite E. reflexivity.
Qed.

Lemma delays_failures (i k : nat) :
  reconnect_delays (N.min (2 ^ N.of_nat i) 30) (repeat false k)
  = map (fun j => N.min (2 ^ N.of_nat j) 30) (seq i k).
Proof.
  revert i. induction k as [|k IH]; intros i; [reflexivity|].
  simpl. f_equal. rewrite <- IH. f_equal.
  rewrite Nat2N.inj_succ, N.pow_succ_r'.
  assert (Hp : (1 <= 2 ^ N.of_nat i)%N).
  { pose proof (N.pow_nonzero 2 (N.of_nat i) ltac:(discriminate)). lia. }
  unfold wrap64, two64.
  rewrite N.mod_small by lia.
  lia.
Qed.

End ReconnectFacts.

(** X18: the reconnect loop of [run] always sleeps between 1 and 30
    seconds; a run of failed attempts from the start, or right after an
    attempt that ended [Ok] (which resets the backoff to 1 whatever it
    was), sleeps 1, 2, 4, 8, 16, 30, 30, ... seconds. *)
Theorem reconnect_backoff (outs pre : list bool) (k : nat) :
  (forall x, In x (Reconnect.run_delays outs) -> (1 <= x <= 30)%N) /\
  Reconnect.run_delays (repeat false k) = map (fun i => N.min (2 ^ N.of_nat i) 30) (seq 0 k) /\
  Reconnect.run_delays (app pre (true :: repeat false k))
  = app (Reconnect.run_delays pre) (map (fun i => N.min (2 ^ N.of_nat i) 30) (seq 0 (S k))).
Proof.
  split; [apply ReconnectFacts.delays_bounded; lia|].
  split; [exact (ReconnectFacts.delays_failures 0 k)|].
  unfold Reconnect.run_delays. destruct (ReconnectFacts.delays_app 1 pre (true :: repeat false k))
    as [b' E].
  rewrite E. f_equal. simpl. f_equal. exact (ReconnectFacts.delays_failures 1 k).
Qed.

(* ------------------------------------------------------------------ *)
(** ** Domain extraction *)

Module DomainFacts.
Import Policy.

(** Where a domain found in one argument comes from. *)
Definition host_of_arg (base arg d : string) : Prop :=
  starts_with "-" arg = false /\
  (try_extract_url_host arg = Some d \/ try_extract_ssh_host arg = Some d \/
   (str_in base ["ssh"; "ping"; "dig"; "nslookup"; "nc"; "ncat"] = true /\
    contains_char "." arg = true /\ d = before_char ":" arg)).

Lemma push_new_nodup (h : string) (l : list string) : NoDup l -> NoDup (push_new h l).
Proof.
  intros H. unfold push_new. destruct (str_in h l) eqn:E; [exact H|].
  apply NoDup_app. split; [exact H|]. split; [|apply NoDup_singleton].
  intros x Hx Hx'. apply list_elem_of_singleton in Hx'. subst.
  apply list_elem_of_In, PolicyFacts.str_in_true in Hx. congruence.
Qed.

Lemma push_new_in (h d : string) (l : list string) : In d (push_new h l) -> In d l \/ d = h.
Proof.
  unfold push_new. destruct (str_in h l); [tauto|].
  rewrite in_app_iff. simpl. intuition.
Qed.

Lemma arg_nodup (base : string) (acc : list string) (a : string) :
  NoDup acc -> NoDup (extract_domains_arg base acc a).
Proof.
  intros H. unfold extract_domains_arg.
  repeat case_match; try exact H; apply push_new_nodup; exact H.
Qed.

Lemma arg_in (base : string) (acc : list string) (a d : string) :
  In d (extract_domains_arg base acc a) -> In d acc \/ host_of_arg base a d.
Proof.
  unfold extract_domains_arg, host_of_arg.
  destruct (starts_with "-" a) eqn:Ef; [tauto|].
  destruct (try_extract_url_host a) as [h|] eqn:Eu.
  { intros Hd. apply push_new_in in Hd as [Hd | ->]; [tauto | right; tauto]. }
  destruct (try_extract_ssh_host a) as [h|] eqn:Es.
  { intros Hd. apply push_new_in in Hd as [Hd | ->]; [tauto | right; tauto]. }
  destruct (_ && _ && _) eqn:Eb; [|tauto].
  apply andb_prop in Eb as [Eb Ed]. apply andb_prop in Eb as [Eb _].
  intros Hd. apply push_new_in in Hd as [Hd | ->]; [tauto | right; tauto].
Qed.

Lemma fold_nodup (base : string) (args acc : list string) :
  NoDup acc -> NoDup (fold_left (extract_domains_arg base) args acc).
Proof.
  revert acc. induction args as [|a args IH]; intros acc H; [exact H|].
  simpl. apply IH, arg_nodup, H.
Qed.

Lemma fold_in (base : string) (args acc : list string) (d : string) :
  In d (fold_left (extract_domains_arg base) args acc) ->
  In d acc \/ exists a, In a args /\ host_of_arg base a d.
Proof.
  revert acc. induction args as [|a args IH]; intros acc Hd; [tauto|].
  simpl in Hd. apply IH in Hd as [Hd | [a' [Ha' Hh]]].
  - apply arg_in in Hd as [Hd | Hh]; [tauto|]. right. exists a. simpl. tauto.
  - right. exists a'. simpl. tauto.
Qed.

Lemma fold_skip_flags (base : string) (args acc : list string) :
  fold_left (extract_domains_arg base)
    (List.filter (fun a => negb (starts_with "-" a)) args) acc
  = fold_left (extract_domains_arg base) args acc.
Proof.
  revert acc. induction args as [|a args IH]; intros acc; [reflexivity|].
  cbn [List.filter fold_left]. destruct (starts_with "-" a) eqn:E; cbn [negb fold_left].
  - rewrite IH. replace (extract_domains_arg base acc a) with acc; [reflexivity|].
    unfold extract_domains_arg. rewrite E. reflexivity.
  - apply IH.
Qed.

End DomainFacts.

(** X19: [extract_domains] lists each domain once, ignores flags (an
    argument starting with "-" never contributes and can be dropped
    without changing the result), and only reports a host read from one
    of the arguments (its URL host, the host of a user@host:path, or the
    part before ':' of a bare host for ssh, ping, dig, nslookup, nc and
    ncat); for a tool whose base name is not a network tool the policy
    decision does not depend on the arguments at all. *)
Theorem extract_domains_props (pc : Policy.PolicyChecker) (req : JobRequest) (c : string)
  (args' : list string) :
  NoDup (Policy.extract_domains (tool req) (args req)) /\
  Policy.extract_domains (tool req) (List.filter (fun a => negb (starts_with "-" a)) (args req))
  = Policy.extract_domains (tool req) (args req) /\
  (forall d, In d (Policy.extract_domains (tool req) (args req)) ->
     exists a, In a (args req) /\
       DomainFacts.host_of_arg (after_last_char "/" (tool req)) a d) /\
  (str_in (after_last_char "/" (tool req)) Policy.NETWORK_TOOLS = false ->
   Policy.check pc (mkJobRequest (job_id req) (tool req) args' (cwd req) (env req)
                      (timeout_ms req)) c
   = Policy.check pc req c).
Proof.
  unfold Policy.extract_domains.
  split; [destruct (negb _); [constructor | apply DomainFacts.fold_nodup; constructor]|].
  split; [destruct (negb _); [reflexivity | apply DomainFacts.fold_skip_flags]|].
  split.
  - destruct (negb _); [intros d []|].
    intros d Hd. apply DomainFacts.fold_in in Hd as [[] | H]. exact H.
  - intros Hn. unfold Policy.check, Policy.extract_domains. cbn [tool args cwd]. rewrite Hn.
    reflexivity.
Qed.

(* ------------------------------------------------------------------ *)
(** ** Running jobs *)

(** X20: a job spawned under a new job id is Running and counts once
    among the active jobs; when its executor task completes, the running
    set (and so [active_count]) is back to what it was before the spawn. *)
Theorem job_lifecycle_active_count (d : Pipeline.Daemon) (req : JobRequest) (code : Z)
  (err : string) (Hnew : job_id req ∉ Registry.jobs (Pipeline.registry d)) :
  let d1 := snd (Pipeline.spawn_job d req) in
  let d2 := Pipeline.complete_job d1 (job_id req) code err in
  Registry.is_known (Pipeline.registry d1) (job_id req) = Registry.Running /\
  Registry.active_count (Pipeline.registry d1)
  = S (Registry.active_count (Pipeline.registry d)) /\
  Registry.jobs (Pipeline.registry d2) = Registry.jobs (Pipeline.registry d) /\
  Registry.active_count (Pipeline.registry d2) = Registry.active_count (Pipeline.registry d).
Proof.
  simpl. unfold Registry.is_known, Registry.active_count. simpl.
  assert (Hj : ({[job_id req]} ∪ Registry.jobs (Pipeline.registry d)) ∖ {[job_id req]}
               = Registry.jobs (Pipeline.registry d)).
  { apply leibniz_equiv. set_solver. }
  rewrite Hj. split; [|split; [|split; reflexivity]].
  - rewrite bool_decide_true by set_solver. reflexivity.
  - rewrite size_union by set_solver. rewrite size_singleton. lia.
Qed.

Lemma job_lifecycle_active_count_witness :
  Registry.active_count
    (Pipeline.registry (snd (Pipeline.spawn_job (Scenario.d_auto Scenario.open_policy)
                               Scenario.req_echo))) = 1.
Proof.
  refine (proj1 (proj2 (job_lifecycle_active_count (Scenario.d_auto Scenario.open_policy)
                          Scenario.req_echo 0 "" _))).
  apply (bool_decide_unpack (job_id Scenario.req_echo
           ∉ Registry.jobs (Pipeline.registry (Scenario.d_auto Scenario.open_policy)))).
  vm_compute. reflexivity.
Defined.
